(** * Root audit with ClamAV: a model of [Audits/PythonAV.py]

    The program walks a directory tree with [os.walk] and runs the external
    scanner [clamscan] on every regular file, logging the outcome.  The
    development below embeds the function [audit_files_with_clamav] together
    with the pieces of the Python runtime it calls ([os.path.join],
    [str.strip], [subprocess.run], [os.walk], [logging]) and proves the
    properties listed in the specification. *)

From Stdlib Require Import ZArith String Ascii List DecimalString.
From Stdlib Require DecimalZ DecimalPos.
From stdpp Require Import base gmap strings list.

Local Open Scope string_scope.
Local Open Scope Z_scope.
Local Open Scope list_scope.

(** ** Python runtime *)

Module Py.

(** Text is modelled by [string]; every character stands for one code point
    below 256.  [is_space] is [str.isspace] on that range, which is the set
    of characters [str.strip()] removes. *)
Definition is_space (c : ascii) : bool :=
  let n := N_of_ascii c in
  ((9 <=? n) && (n <=? 13) || (28 <=? n) && (n <=? 32)
   || (n =? 133) || (n =? 160))%N.

Definition is_empty (s : string) : bool :=
  match s with EmptyString => true | String _ _ => false end.

Fixpoint lstrip (s : string) : string :=
  match s with
  | String c s' => if is_space c then lstrip s' else s
  | EmptyString => EmptyString
  end.

Fixpoint rstrip (s : string) : string :=
  match s with
  | String c s' =>
      let r := rstrip s' in
      if is_space c && is_empty r then EmptyString else String c r
  | EmptyString => EmptyString
  end.

(** [s.strip()] *)
Definition strip (s : string) : string := lstrip (rstrip s).

Definition sep : ascii := "/"%char.

(** [s.startswith('/')] and [s.endswith('/')] *)
Definition startswith_sep (s : string) : bool :=
  match s with String c _ => bool_decide (c = sep) | EmptyString => false end.

Fixpoint endswith_sep (s : string) : bool :=
  match s with
  | String c EmptyString => bool_decide (c = sep)
  | String _ s' => endswith_sep s'
  | EmptyString => false
  end.

(** [os.path.join(a, b)] of [posixpath], for two components. *)
Definition join (a b : string) : string :=
  if startswith_sep b || is_empty a then b
  else if endswith_sep a then a +:+ b
  else a +:+ "/" +:+ b.

(** [str(n)] for an [int], as an f-string field prints it. *)
Definition str_int (n : Z) : string := NilZero.string_of_int (Z.to_int n).

(** A [bytes] value is modelled by [string] too, one character a byte.
    [bytes.strip()] removes the six bytes of ASCII whitespace. *)
Definition is_space_byte (c : ascii) : bool :=
  let n := N_of_ascii c in
  ((9 <=? n) && (n <=? 13) || (n =? 32))%N.

Fixpoint lstrip_bytes (s : string) : string :=
  match s with
  | String c s' => if is_space_byte c then lstrip_bytes s' else s
  | EmptyString => EmptyString
  end.

Fixpoint rstrip_bytes (s : string) : string :=
  match s with
  | String c s' =>
      let r := rstrip_bytes s' in
      if is_space_byte c && is_empty r then EmptyString else String c r
  | EmptyString => EmptyString
  end.

Definition strip_bytes (s : string) : string := lstrip_bytes (rstrip_bytes s).

Fixpoint contains (c : ascii) (s : string) : bool :=
  match s with
  | String c' s' => bool_decide (c' = c) || contains c s'
  | EmptyString => false
  end.

Definition hex_digit (n : N) : ascii :=
  ascii_of_N (if (n <? 10)%N then 48 + n else 87 + n)%N.

Definition squote : ascii := ascii_of_N 39.
Definition dquote : ascii := ascii_of_N 34.
Definition backslash : ascii := ascii_of_N 92.

Definition escape_byte (quote c : ascii) : string :=
  let n := N_of_ascii c in
  if bool_decide (c = quote) || bool_decide (c = backslash) then
    String backslash (String c EmptyString)
  else if (n =? 9)%N then String backslash "t"
  else if (n =? 10)%N then String backslash "n"
  else if (n =? 13)%N then String backslash "r"
  else if ((n <? 32) || (127 <=? n))%N then
    String backslash
      (String "x"%char
         (String (hex_digit (n / 16))
            (String (hex_digit (n mod 16)) EmptyString)))
  else String c EmptyString.

Fixpoint escape_bytes (quote : ascii) (s : string) : string :=
  match s with
  | String c s' => escape_byte quote c +:+ escape_bytes quote s'
  | EmptyString => EmptyString
  end.

(** [repr(b)] for a [bytes] value, as an f-string field prints it. *)
Definition repr_bytes (s : string) : string :=
  let quote :=
    if contains squote s && negb (contains dquote s) then dquote else squote in
  String "b"%char
    (String quote (escape_bytes quote s +:+ String quote EmptyString)).

End Py.

(** ** Exceptions, log records and events *)

(** The exception classes the handlers of the source tell apart, the two
    that [subprocess.run] and [os.walk] raise of their own, and the rest of
    [Exception]. *)
Inductive exn_class :=
| FileNotFoundError
| PermissionError
| CalledProcessError
| RecursionError
| OtherException.

(** An exception value: its class and [str(e)]. *)
Record exn := Exn { exn_cls : exn_class; exn_str : string }.

Inductive level := DEBUG | INFO | WARNING | ERROR.

(** What a run does, in order: a call of the [logging] module, a call of
    [subprocess.run] with its argument list, and the evaluation of
    [root in inaccessible_dirs] (line 28) with its result. *)
Inductive event :=
| Log (lvl : level) (msg : string)
| Run (command : list string)
| Consult (root : string) (found : bool).

Global Instance exn_class_eq_dec : EqDecision exn_class.
Proof. solve_decision. Defined.
Global Instance exn_eq_dec : EqDecision exn.
Proof. solve_decision. Defined.
Global Instance level_eq_dec : EqDecision level.
Proof. solve_decision. Defined.
Global Instance event_eq_dec : EqDecision event.
Proof. solve_decision. Defined.

(** ** The world outside the process *)

(** Outcome of [os.scandir] on a directory. *)
Inductive listing :=
| Listed
| ScandirFails (e : exn).

(** A directory entry as [os.walk] sees it: a directory with its own
    entries (which [scandir] may fail to list), a symbolic link to a
    directory ([entry.is_dir()] holds and so does [os.path.islink]), or
    anything else. *)
#[local] Unset Elimination Schemes.
Inductive node :=
| Dir (ls : listing) (entries : list (string * node))
| DirLink
| NonDir.
#[local] Set Elimination Schemes.

(** The two ways in which [subprocess.run] hands nothing back to the
    program: the interpreter is interrupted while the call waits for the
    process ([KeyboardInterrupt], a [BaseException]: no [except] clause of
    the source catches it and the script has no handler for it), or the
    process never exits and the call, which sets no timeout, never
    returns. *)
Inductive halt := Interrupted | NeverReturns.

(** Outcome of launching a command and waiting for it: the exit status with
    what the process wrote, an exception of class [Exception] raised by the
    call, or none of the two. *)
Inductive spawn :=
| Exited (code : Z) (out err : string)
| SpawnFails (e : exn)
| Halts (h : halt).

Record world := World {
  (** the directory a start path names, if it names one *)
  opendir : string -> option node;
  (** [os.path.isfile], asked at scan time *)
  isfile : string -> bool;
  (** running an argument list found through the search path *)
  exec : list string -> spawn;
  (** whether the stack of the interpreter is used up when [os.walk] goes
      on from a directory to this name in its [dirs]: the walk of CPython up
      to 3.11 nests one generator for each level of the tree and raises
      [RecursionError] at the depth where the recursion limit is reached;
      the iterative walk of 3.12 never does *)
  too_deep : string -> bool
}.

(** [os.path.isdir] *)
Definition isdir (w : world) (p : string) : bool :=
  match opendir w p with
  | Some (Dir _ _) => true
  | _ => false
  end.

(** ** State and control *)

(** The variables a run mutates: the set of line 24, the list object [dirs]
    that [os.walk] yields and reads back after the loop body, and the events
    so far. *)
Record state := State {
  inaccessible_dirs : gset string;
  dirs : list string;
  trace : list event
}.

(** How a block ends: normally with a value, by [return], with an
    exception of class [Exception] on its way up, or not as far as the
    handlers of the program can tell: a [KeyboardInterrupt] is on its way
    up through all of them, or the block never ends. *)
Inductive res (A : Type) :=
| Val (a : A)
| Ret
| Exc (e : exn)
| Halt (h : halt).
Arguments Val {A} a.
Arguments Ret {A}.
Arguments Exc {A} e.
Arguments Halt {A} h.

Definition M (A : Type) : Type := state -> res A * state.

Definition ret {A} (a : A) : M A := fun s => (Val a, s).

Definition bind {A B} (m : M A) (k : A -> M B) : M B :=
  fun s =>
    match m s with
    | (Val a, s') => k a s'
    | (Ret, s') => (Ret, s')
    | (Exc e, s') => (Exc e, s')
    | (Halt h, s') => (Halt h, s')
    end.

Declare Scope py_scope.
Delimit Scope py_scope with py.
Notation "x <- m ;; k" := (bind m (fun x => k))
  (at level 100, m at next level, right associativity) : py_scope.
Notation "m ;; k" := (bind m (fun _ => k))
  (at level 100, right associativity) : py_scope.
Local Open Scope py_scope.

(** [raise e] and [return] *)
Definition raise {A} (e : exn) : M A := fun s => (Exc e, s).
Definition return_ {A} : M A := fun s => (Ret, s).

Definition halts {A} (h : halt) : M A := fun s => (Halt h, s).

(** [try: body / except ... as e: handler e], for handlers that together
    catch every class of [exn], which are the classes of [Exception]. *)
Definition try_except {A} (body : M A) (handler : exn -> M A) : M A :=
  fun s =>
    match body s with
    | (Exc e, s') => handler e s'
    | r => r
    end.

(** A function call: [return] ends the callee, not the caller. *)
Definition call (body : M unit) : M unit :=
  fun s =>
    match body s with
    | (Ret, s') => (Val tt, s')
    | r => r
    end.

Definition emit (e : event) : M unit :=
  fun s => (Val tt, State (inaccessible_dirs s) (dirs s) (trace s ++ [e])).

Definition log (lvl : level) (msg : string) : M unit := emit (Log lvl msg).

(** [dirs[:] = l] *)
Definition set_dirs (l : list string) : M unit :=
  fun s => (Val tt, State (inaccessible_dirs s) l (trace s)).

Definition get_dirs : M (list string) := fun s => (Val (dirs s), s).

(** [inaccessible_dirs = set()] *)
Definition new_inaccessible_dirs : M unit :=
  fun s => (Val tt, State ∅ (dirs s) (trace s)).

(** [inaccessible_dirs.add(root)] *)
Definition add_inaccessible (root : string) : M unit :=
  fun s => (Val tt, State ({[root]} ∪ inaccessible_dirs s) (dirs s) (trace s)).

(** [root in inaccessible_dirs] *)
Definition consult (root : string) : M bool :=
  fun s =>
    let b := bool_decide (root ∈ inaccessible_dirs s) in
    (Val b, State (inaccessible_dirs s) (dirs s) (trace s ++ [Consult root b])).

(** [for x in l: body x]; a [continue] in the body is the body ending
    normally, a [return] or an exception leaves the loop. *)
Definition for_each {A} (l : list A) (body : A -> M unit) : M unit :=
  (fix loop (l : list A) : M unit :=
     match l with
     | [] => ret tt
     | x :: l' => body x ;; loop l'
     end) l.

(** ** [subprocess.run] *)

(** An output attribute of a [CompletedProcess]: [None] when the stream was
    not captured, [bytes] when it was captured undecoded, [str] when it was
    captured as text. *)
Inductive stream :=
| NotCaptured
| Bytes (raw : string)
| Text (text : string).

Record CompletedProcess := Completed {
  returncode : Z;
  stdout : stream;
  stderr : stream
}.

Definition captured (capture_output text : bool) (written : string) : stream :=
  if capture_output then
    if text then Text written else Bytes written
  else NotCaptured.

(** [subprocess.run(command, capture_output=..., text=..., check=...)]:
    a launch failure is raised; with [check] a non-zero exit status is raised
    as [CalledProcessError]; otherwise the exit status is returned with the
    two streams as the keyword arguments ask for them. *)
Definition subprocess_run (w : world) (command : list string)
    (capture_output text check : bool) : M CompletedProcess :=
  emit (Run command) ;;
  match exec w command with
  | SpawnFails e => raise e
  | Halts h => halts h
  | Exited code out err =>
      if check && negb (code =? 0)
      then raise (Exn CalledProcessError "Command returned non-zero exit status")
      else ret (Completed code (captured capture_output text out)
                  (captured capture_output text err))
  end.

(** The f-string field [{x.strip()}] for an output attribute [x]. *)
Definition strip_field (x : stream) : M string :=
  match x with
  | Text text => ret (Py.strip text)
  | Bytes raw => ret (Py.repr_bytes (Py.strip_bytes raw))
  | NotCaptured =>
      raise (Exn OtherException "'NoneType' object has no attribute 'strip'")
  end.

(** ** [audit_files_with_clamav] *)

(** Lines 51-76: the body of the inner [try]. *)
Definition scan (w : world) (file_path : string) : M unit :=
  let command := ["clamscan"; "--no-summary"; file_path] in
  process <- subprocess_run w command true true false ;;
  if returncode process =? 0 then
    log INFO ("CLEAN: " +:+ file_path)
  else if returncode process =? 1 then
    log WARNING ("INFECTED: " +:+ file_path) ;;
    output <- strip_field (stdout process) ;;
    log WARNING ("  ClamAV Output: " +:+ output)
  else
    log ERROR ("ERROR scanning " +:+ file_path +:+ " (Return Code: "
               +:+ Py.str_int (returncode process) +:+ ")") ;;
    output <- strip_field (stderr process) ;;
    log ERROR ("  ClamAV Stderr: " +:+ output).

Definition clamscan_not_found : string :=
  "ClamAV (clamscan) not found. Please ensure ClamAV is installed and in your system's PATH.".

(** Lines 78-82: the handlers of the inner [try]. *)
Definition scan_handler (file_path : string) (e : exn) : M unit :=
  match exn_cls e with
  | FileNotFoundError =>
      log ERROR clamscan_not_found ;;
      return_
  | _ =>
      log ERROR ("An unexpected error occurred while scanning " +:+ file_path
                 +:+ ": " +:+ exn_str e)
  end.

(** Lines 40-82: one round of the loop over [files]. *)
Definition scan_file (w : world) (root file_name : string) : M unit :=
  let file_path := Py.join root file_name in
  if negb (isfile w file_path) then
    ret tt
  else
    log DEBUG ("Scanning: " +:+ file_path) ;;
    try_except (scan w file_path) (scan_handler file_path).

(** Lines 39-82: the loop over [files]. *)
Definition scan_files (w : world) (root : string) (files : list string) : M unit :=
  for_each files (scan_file w root).

(** Lines 84-89: the handlers of the outer [try]. *)
Definition walk_handler (root : string) (e : exn) : M unit :=
  match exn_cls e with
  | PermissionError =>
      log WARNING ("Permission denied to access directory: " +:+ root
                   +:+ ". Skipping this directory.") ;;
      add_inaccessible root ;;
      set_dirs []
  | _ =>
      log ERROR ("An error occurred during directory traversal in " +:+ root
                 +:+ ": " +:+ exn_str e)
  end.

(** Lines 28-89: the body of the loop over [os.walk], run once for each
    triple [(root, dirs, files)] the generator yields; [dirs] is in the
    state. *)
Definition visit (w : world) (root : string) (files : list string) : M unit :=
  found <- consult root ;;
  if found then
    set_dirs []
  else
    try_except (scan_files w root files) (walk_handler root).

(** ** [os.walk] *)

Definition is_dir (n : node) : bool :=
  match n with
  | Dir _ _ | DirLink => true
  | NonDir => false
  end.

Definition islink (n : node) : bool :=
  match n with
  | DirLink => true
  | _ => false
  end.

(** The two lists [os.walk] builds from the entries of a directory. *)
Definition dirnames (entries : list (string * node)) : list string :=
  (filter (fun e => is_dir e.2 = true) entries).*1.

Definition nondirnames (entries : list (string * node)) : list string :=
  (filter (fun e => is_dir e.2 = false) entries).*1.

Definition recursion_error : exn :=
  Exn RecursionError "maximum recursion depth exceeded".

(** [for root, dirs, files in os.walk(top): body], top-down, [onerror] and
    [followlinks] left at their defaults.  A directory whose [scandir] fails
    is passed over in silence: nothing is yielded for it and nothing below it
    is walked.  For a listed directory the generator yields
    [(top, dirs, files)], the loop body runs, and the walk then goes on, in
    order, to the names the body left in [dirs]: where the stack of the
    interpreter is used up it raises [RecursionError], which leaves the
    [for] statement of line 26, outside every [try] of the source; a
    symbolic link is passed over; any other name is walked in the same way.
    The entries of a directory carry distinct names, so going through
    [entries] and keeping those named in [dirs] treats the same names in the
    same order as going through [dirs]. *)
Fixpoint os_walk (w : world) (top : string) (n : node)
    (body : string -> list string -> M unit) {struct n} : M unit :=
  match n with
  | Dir Listed entries =>
      set_dirs (dirnames entries) ;;
      body top (nondirnames entries) ;;
      ds <- get_dirs ;;
      for_each entries (fun e =>
        if is_dir e.2 && bool_decide (e.1 ∈ ds) then
          if too_deep w (Py.join top e.1) then raise recursion_error
          else if islink e.2 then ret tt
          else os_walk w (Py.join top e.1) e.2 body
        else ret tt)
  | _ => ret tt
  end.

(** Lines 16-91. *)
Definition audit_files_with_clamav (w : world) (start_path : string) : M unit :=
  call (
    if negb (isdir w start_path) then
      log ERROR ("Error: The provided path '" +:+ start_path
                 +:+ "' is not a valid directory.") ;;
      return_
    else
      log INFO ("Starting ClamAV audit of: " +:+ start_path) ;;
      new_inaccessible_dirs ;;
      os_walk w start_path (default NonDir (opendir w start_path)) (visit w) ;;
      log INFO "ClamAV audit completed.").

(** A run from scratch: the events of one call. *)
Definition initial : state := State ∅ [] [].

Definition run (w : world) (start_path : string) : res unit * state :=
  audit_files_with_clamav w start_path initial.

(** ** The events of a run, as a function of the world

    [scan_events], [file_events], [files_events] and [walk_events] list the
    events the loops of the source produce, with the way the loop ends: the
    run goes on ([Val]), it has executed [return] ([Ret]), an exception is
    on its way up ([Exc]), or a launch has halted it ([Halt]).  They are
    derived from the definitions above and proved equal to them below. *)

(** Lines 68-76. *)
Definition classify (file_path : string) (code : Z) (out err : string) : list event :=
  if code =? 0 then
    [Log INFO ("CLEAN: " +:+ file_path)]
  else if code =? 1 then
    [Log WARNING ("INFECTED: " +:+ file_path);
     Log WARNING ("  ClamAV Output: " +:+ Py.strip out)]
  else
    [Log ERROR ("ERROR scanning " +:+ file_path +:+ " (Return Code: "
                +:+ Py.str_int code +:+ ")");
     Log ERROR ("  ClamAV Stderr: " +:+ Py.strip err)].

Definition clamscan (file_path : string) : list string :=
  ["clamscan"; "--no-summary"; file_path].

Definition scan_events (w : world) (file_path : string)
  : res unit * list event :=
  match exec w (clamscan file_path) with
  | Exited code out err =>
      (Val tt, Run (clamscan file_path) :: classify file_path code out err)
  | SpawnFails e =>
      match exn_cls e with
      | FileNotFoundError =>
          (Ret, [Run (clamscan file_path); Log ERROR clamscan_not_found])
      | _ =>
          (Val tt, [Run (clamscan file_path);
                    Log ERROR ("An unexpected error occurred while scanning "
                               +:+ file_path +:+ ": " +:+ exn_str e)])
      end
  | Halts h => (Halt h, [Run (clamscan file_path)])
  end.

Definition file_events (w : world) (root file_name : string)
  : res unit * list event :=
  let file_path := Py.join root file_name in
  if isfile w file_path then
    (fst (scan_events w file_path),
     Log DEBUG ("Scanning: " +:+ file_path) :: snd (scan_events w file_path))
  else (Val tt, []).

(** Events of parts run one after the other, up to the first that stops. *)
Fixpoint chain (parts : list (res unit * list event)) : res unit * list event :=
  match parts with
  | [] => (Val tt, [])
  | (Val _, evs) :: parts' => (fst (chain parts'), evs ++ snd (chain parts'))
  | (r, evs) :: _ => (r, evs)
  end.

Definition files_events (w : world) (root : string) (files : list string)
  : res unit * list event :=
  chain (map (file_events w root) files).

Fixpoint walk_events (w : world) (top : string) (n : node) {struct n}
  : res unit * list event :=
  match n with
  | Dir Listed entries =>
      chain ((Val tt, [Consult top false])
             :: files_events w top (nondirnames entries)
             :: map (fun e =>
                       if is_dir e.2 then
                         if too_deep w (Py.join top e.1)
                         then (Exc recursion_error, [])
                         else match e.2 with
                              | Dir _ _ => walk_events w (Py.join top e.1) e.2
                              | _ => (Val tt, [])
                              end
                       else (Val tt, [])) entries)
  | _ => (Val tt, [])
  end.

(** The result and the events of one call of [audit_files_with_clamav]: a
    [return] ends the call like its last statement does, an exception
    leaves it, a halt is one of the call. *)
Definition run_result (w : world) (start_path : string) : res unit :=
  if isdir w start_path then
    match (walk_events w start_path (default NonDir (opendir w start_path))).1
    with
    | Exc e => Exc e
    | Halt h => Halt h
    | _ => Val tt
    end
  else Val tt.

Definition run_events (w : world) (start_path : string) : list event :=
  if isdir w start_path then
    let r := walk_events w start_path (default NonDir (opendir w start_path)) in
    Log INFO ("Starting ClamAV audit of: " +:+ start_path)
    :: r.2 ++ match r.1 with
              | Val _ => [Log INFO "ClamAV audit completed."]
              | _ => []
              end
  else
    [Log ERROR ("Error: The provided path '" +:+ start_path
                +:+ "' is not a valid directory.")].

(** The state after more events. *)
Definition extend (s : state) (evs : list event) : state :=
  State (inaccessible_dirs s) (dirs s) (trace s ++ evs).

(** ** Induction on directory trees *)

Section NodeInd.
Variable P : node -> Prop.
Hypothesis HDir : forall ls entries,
  Forall (fun e => P e.2) entries -> P (Dir ls entries).
Hypothesis HDirLink : P DirLink.
Hypothesis HNonDir : P NonDir.

Fixpoint node_ind (n : node) : P n :=
  match n with
  | Dir ls entries =>
      HDir ls entries
        ((fix all (l : list (string * node)) : Forall (fun e => P e.2) l :=
            match l with
            | [] => List.Forall_nil _
            | e :: l' => List.Forall_cons _ e l' (node_ind e.2) (all l')
            end) entries)
  | DirLink => HDirLink
  | NonDir => HNonDir
  end.
End NodeInd.


(** ** Vocabulary of the properties *)

(** The argument lists passed to [subprocess.run], in order. *)
Definition runs (t : list event) : list (list string) :=
  omap (fun e => match e with Run c => Some c | _ => None end) t.

(** The launch of a command fails because the executable is not found. *)
Definition not_found (w : world) (command : list string) : Prop :=
  exists e, exec w command = SpawnFails e /\ exn_cls e = FileNotFoundError.

(** The scanner can be launched on a file and returns an exit status. *)
Definition launches (w : world) (file_path : string) : bool :=
  match exec w (clamscan file_path) with
  | Exited _ _ _ => true
  | _ => false
  end.

(** An event that is neither the missing-scanner error nor a launch that
    fails for a missing executable. *)
Definition quiet (w : world) (e : event) : Prop :=
  e <> Log ERROR clamscan_not_found /\ forall c, e = Run c -> ~ not_found w c.

(** The paths among [files] of [root] that are regular files at scan time. *)
Definition regular_files (w : world) (root : string) (files : list string)
  : list string :=
  filter (fun p => isfile w p = true) (Py.join root <$> files).

(** The regular files under a directory that are not below a directory
    whose listing fails, in the order of the walk. *)
Fixpoint reachable_files (w : world) (top : string) (n : node) {struct n}
  : list string :=
  match n with
  | Dir Listed entries =>
      regular_files w top (nondirnames entries)
      ++ concat (map (fun e =>
                        match e.2 with
                        | Dir _ _ => reachable_files w (Py.join top e.1) e.2
                        | _ => []
                        end) entries)
  | _ => []
  end.

(** A name as [scandir] returns it: not empty and without separator. *)
Definition name_ok (name : string) : bool :=
  negb (Py.is_empty name) && bool_decide (Py.sep ∉ list_ascii_of_string name).

(** A directory tree as a file system has it: the entries of a directory
    carry distinct names. *)
Fixpoint well_formed (n : node) : bool :=
  match n with
  | Dir _ entries =>
      bool_decide (NoDup entries.*1)
      && forallb (fun e => name_ok e.1 && well_formed e.2) entries
  | _ => true
  end.

(** The first line of a scan-error record. *)
Definition scan_error_line (file_path : string) (code : Z) : string :=
  "ERROR scanning " +:+ file_path +:+ " (Return Code: "
  +:+ Py.str_int code +:+ ")".

(** An event that logs one of the classifications Clean, Infected and
    ScanError for a file. *)
Definition classifies (file_path : string) (e : event) : Prop :=
  e = Log INFO ("CLEAN: " +:+ file_path)
  \/ e = Log WARNING ("INFECTED: " +:+ file_path)
  \/ exists code, e = Log ERROR (scan_error_line file_path code).

Definition classified_once (t : list event) (file_path : string) : Prop :=
  exists pre e post,
    t = pre ++ e :: post /\ classifies file_path e
    /\ Forall (fun e' => ~ classifies file_path e') (pre ++ post).

(** Event lists made of the records of scans, with the files scanned. *)
Inductive blocks (w : world) : list string -> list event -> Prop :=
| blocks_nil : blocks w [] []
| blocks_consult root fs evs :
    blocks w fs evs -> blocks w fs (Consult root false :: evs)
| blocks_scan f fs evs :
    blocks w fs evs ->
    blocks w (f :: fs)
      (Log DEBUG ("Scanning: " +:+ f) :: (scan_events w f).2 ++ evs).

(** ** Scenarios *)

Definition denied : exn :=
  Exn PermissionError "[Errno 13] Permission denied: '/r/locked'".

(** The tree of the scenario of the specification: two files and a
    directory that cannot be listed. *)
Definition scenario_tree : node :=
  Dir Listed
    [("a.txt", NonDir); ("b.exe", NonDir);
     ("locked", Dir (ScandirFails denied) [("c.txt", NonDir)])].

Definition scenario_fs (p : string) : option node :=
  if bool_decide (p = "/r") then Some scenario_tree
  else if bool_decide (p = "/r/a.txt") then Some NonDir
  else None.

Definition scenario : world :=
  World scenario_fs
    (fun _ => true)
    (fun c => if bool_decide (c = clamscan "/r/b.exe")
              then Exited 1 " /r/b.exe: Test.Signature FOUND " ""
              else Exited 0 "" "")
    (fun _ => false).

(** The same tree on a machine without the scanner. *)
Definition no_scanner : world :=
  World scenario_fs
    (fun _ => true)
    (fun _ => SpawnFails
                (Exn FileNotFoundError
                   "[Errno 2] No such file or directory: 'clamscan'"))
    (fun _ => false).

(** The same tree with a scanner that cannot be executed on [a.txt] and
    fails with status 2 on [b.exe]; [b.exe] is a named pipe. *)
Definition broken_scanner : world :=
  World scenario_fs
    (fun p => negb (bool_decide (p = "/r/b.exe")))
    (fun c => if bool_decide (c = clamscan "/r/a.txt")
              then SpawnFails (Exn PermissionError
                                 "[Errno 13] Permission denied: 'clamscan'")
              else Exited 2 "" " LibClamAV Error: cannot open database ")
    (fun _ => false).

(** A launch in the form the source builds it, on a path for which the
    regular-file check holds. *)
Definition checked_scan (w : world) (e : event) : Prop :=
  match e with
  | Run command =>
      exists file_path,
        command = ["clamscan"; "--no-summary"; file_path]
        /\ isfile w file_path = true
  | _ => True
  end.

Definition clamscan_call (e : event) : Prop :=
  match e with
  | Run command =>
      exists file_path, command = ["clamscan"; "--no-summary"; file_path]
  | _ => True
  end.

(** A consultation of the set that does not find the directory. *)
Definition missed (e : event) : Prop :=
  match e with
  | Consult _ found => found = false
  | _ => True
  end.

(** Events that end with the launch that found no scanner and its error
    record, nothing of the kind before. *)
Definition aborted (w : world) (evs : list event) : Prop :=
  exists pre c,
    evs = pre ++ [Run c; Log ERROR clamscan_not_found]
    /\ Forall (quiet w) pre /\ not_found w c.

Definition sound (w : world) (r : res unit * list event) : Prop :=
  match r.1 with
  | Ret => aborted w r.2
  | _ => Forall (quiet w) r.2
  end.

(** The prefix [os.path.join] puts before a name that does not start with
    the separator. *)
Definition base (top : string) : string :=
  if Py.is_empty top then ""
  else if Py.endswith_sep top then top
  else top +:+ "/".

(** The events [r] are the records of the scans of the files [fs]: all of
    them when the run goes on, the first of them up to a failed launch
    when it has returned, the first of them when an exception or a halt has
    ended it. *)
Definition covers (w : world) (fs : list string) (r : res unit * list event)
  : Prop :=
  exists scanned,
    blocks w scanned r.2
    /\ match r.1 with
       | Val _ => scanned = fs
       | Ret => scanned `prefix_of` fs
                /\ exists f, f ∈ scanned /\ launches w f = false
       | _ => scanned `prefix_of` fs
       end.

(** The directories for which the set is consulted, in order. *)
Definition consulted (t : list event) : list string :=
  omap (fun e => match e with Consult root _ => Some root | _ => None end) t.

(** The directories [os.walk] lists and yields, in order. *)
Fixpoint listed_dirs (top : string) (n : node) {struct n} : list string :=
  match n with
  | Dir Listed entries =>
      top :: concat (map (fun e =>
                            match e.2 with
                            | Dir _ _ => listed_dirs (Py.join top e.1) e.2
                            | _ => []
                            end) entries)
  | _ => []
  end.

(** The records that reach the log stream: [basicConfig] sets the level to
    INFO (line 6), so the DEBUG calls print nothing. *)
Definition log_stream (t : list event) : list (level * string) :=
  omap (fun e => match e with
                 | Log DEBUG _ => None
                 | Log lvl msg => Some (lvl, msg)
                 | _ => None
                 end) t.

(** An event other than the warning of line 85. *)
Definition no_permission_warning (e : event) : Prop :=
  match e with
  | Log WARNING msg =>
      forall root, msg <> "Permission denied to access directory: " +:+ root
                          +:+ ". Skipping this directory."
  | _ => True
  end.

(** ** The script and further vocabulary *)

(** Lines 93-102: run as a script, the module audits the whole system. *)
Definition scan_directory : string := "/".

Definition main (w : world) : M unit :=
  audit_files_with_clamav w scan_directory.

(** The record of line 89. *)
Definition no_traversal_error (e : event) : Prop :=
  match e with
  | Log ERROR msg =>
      forall root detail,
        msg <> "An error occurred during directory traversal in " +:+ root
               +:+ ": " +:+ detail
  | _ => True
  end.

(** The records that follow the launch of the scanner on a file
    (lines 68-82). *)
Definition records_after (w : world) (file_path : string) : list event :=
  match exec w (clamscan file_path) with
  | Exited code out err => classify file_path code out err
  | SpawnFails e =>
      match exn_cls e with
      | FileNotFoundError => [Log ERROR clamscan_not_found]
      | _ => [Log ERROR ("An unexpected error occurred while scanning "
                         +:+ file_path +:+ ": " +:+ exn_str e)]
      end
  | Halts _ => []
  end.

(** The path of every entry below a directory, at any depth. *)
Fixpoint all_paths (top : string) (n : node) {struct n} : list string :=
  match n with
  | Dir _ entries =>
      concat (map (fun e => Py.join top e.1 :: all_paths (Py.join top e.1) e.2)
                  entries)
  | _ => []
  end.

(** The paths below the directories whose listing fails. *)
Fixpoint hidden_paths (top : string) (n : node) {struct n} : list string :=
  match n with
  | Dir Listed entries =>
      concat (map (fun e => hidden_paths (Py.join top e.1) e.2) entries)
  | Dir (ScandirFails _) entries =>
      concat (map (fun e => Py.join top e.1 :: all_paths (Py.join top e.1) e.2)
                  entries)
  | _ => []
  end.

(** A part whose projection [proj] follows the list [full]: all of it when
    the run goes on, a first part of it when it has stopped. *)
Definition tracks {B} (proj : event -> option B) (full : list B)
    (r : res unit * list event) : Prop :=
  match r.1 with
  | Val _ => omap proj r.2 = full
  | _ => omap proj r.2 `prefix_of` full
  end.

Definition consult_root (e : event) : option string :=
  match e with Consult root _ => Some root | _ => None end.

(** A tree with a second level, a directory that cannot be listed and a
    link, and a world on it where the scanner finds [b.exe] infected and
    fails on [d.bin]. *)
Definition deep_tree : node :=
  Dir Listed
    [("a.txt", NonDir);
     ("sub", Dir Listed [("b.exe", NonDir); ("d.bin", NonDir)]);
     ("locked", Dir (ScandirFails denied) [("c.txt", NonDir)]);
     ("link", DirLink)].

Definition deep : world :=
  World (fun p => if bool_decide (p = "/") then Some deep_tree else None)
    (fun _ => true)
    (fun c => if bool_decide (c = clamscan "/sub/b.exe")
              then Exited 1 "/sub/b.exe: Eicar FOUND" ""
              else if bool_decide (c = clamscan "/sub/d.bin")
              then Exited 2 "" "cannot read"
              else Exited 0 "" "")
    (fun _ => false).

(** The same tree and scanner on an interpreter whose stack is used up when
    [os.walk] goes on from the root to [sub]. *)
Definition limited : world :=
  World (opendir deep) (isfile deep) (exec deep)
    (fun p => bool_decide (p = "/sub")).

(** The events [t] come in the order of the loop, [seen] being the
    directories for which the set has been consulted before them: a
    consultation misses, and is for [start] or for an entry of a directory
    consulted earlier; a launch is the scanner on an entry of a directory
    consulted earlier. *)
Fixpoint in_order (start : string) (seen : list string) (t : list event)
  : Prop :=
  match t with
  | [] => True
  | Log _ _ :: t' => in_order start seen t'
  | Run c :: t' =>
      (exists root name, c = clamscan (Py.join root name) /\ root ∈ seen)
      /\ in_order start seen t'
  | Consult d found :: t' =>
      found = false
      /\ (d = start \/ exists root name, d = Py.join root name /\ root ∈ seen)
      /\ in_order start (d :: seen) t'
  end.

(** What [subprocess.run] hands to line 68 for a stream the scanner wrote
    [written] to, and what lines 73 and 76 log of it. *)
Definition logged_detail (capture_output text : bool) (written : string)
  : res string :=
  (strip_field (captured capture_output text written) initial).1.

(** The world [deep] with a scanner that never exits on [b.exe]. *)
Definition stuck : world :=
  World (opendir deep) (isfile deep)
    (fun c => if bool_decide (c = clamscan "/sub/b.exe")
              then Halts NeverReturns
              else exec deep c)
    (fun _ => false).
(** ** The loops produce the listed events *)

Lemma extend_nil s : extend s [] = s.
Proof. destruct s; unfold extend; simpl. by rewrite app_nil_r. Qed.

Lemma extend_extend s evs evs' :
  extend (extend s evs) evs' = extend s (evs ++ evs').
Proof. unfold extend; simpl. by rewrite app_assoc. Qed.

Lemma emit_extend e s : emit e s = (Val tt, extend s [e]).
Proof. reflexivity. Qed.

Lemma scan_exact w file_path s :
  try_except (scan w file_path) (scan_handler file_path) s
  = ((scan_events w file_path).1,
     extend s (scan_events w file_path).2).
Proof.
  destruct s as [S d t].
  unfold try_except, scan, scan_events, subprocess_run, scan_handler, classify,
    clamscan, strip_field, captured, bind, log, emit, raise, return_, halts,
    ret, extend; simpl.
  destruct (exec w _) as [code out err|e|h]; simpl.
  - destruct (code =? 0); [|destruct (code =? 1)]; simpl;
      rewrite <- ?app_assoc; done.
  - destruct (exn_cls e); simpl; rewrite <- ?app_assoc; done.
  - done.
Qed.

Lemma scan_file_exact w root file_name s :
  scan_file w root file_name s
  = ((file_events w root file_name).1,
     extend s (file_events w root file_name).2).
Proof.
  unfold scan_file, file_events.
  destruct (isfile w _); simpl.
  - unfold bind, log. rewrite emit_extend, scan_exact, extend_extend. done.
  - by rewrite extend_nil.
Qed.

Lemma for_each_cons {A} (x : A) l body :
  for_each (x :: l) body = (body x ;; for_each l body).
Proof. reflexivity. Qed.

(** A loop whose rounds produce the events [f x] under an invariant [P] of
    the state produces their [chain]. *)
Lemma for_each_chain {A} (P : state -> Prop)
    (f : A -> res unit * list event) (body : A -> M unit) (l : list A) :
  (forall x s, x ∈ l -> P s ->
     exists s', body x s = ((f x).1, s') /\ P s'
                /\ trace s' = trace s ++ (f x).2) ->
  forall s, P s ->
    exists s', for_each l body s = ((chain (map f l)).1, s') /\ P s'
               /\ trace s' = trace s ++ (chain (map f l)).2.
Proof.
  induction l as [|x l IH]; intros Hbody s HP.
  - exists s. simpl. by rewrite app_nil_r.
  - destruct (Hbody x s) as (s1 & Hx & HP1 & Ht1); [left | done |].
    rewrite for_each_cons. unfold bind. rewrite Hx. simpl.
    destruct (f x) as [[[]| |e|h] evs]; simpl in *.
    + destruct (IH (fun y s0 Hy => Hbody y s0 (list_elem_of_further _ _ _ Hy)) s1 HP1)
        as (s2 & Hl & HP2 & Ht2).
      exists s2. rewrite Hl, Ht2, Ht1, app_assoc. done.
    + exists s1. done.
    + exists s1. done.
    + exists s1. done.
Qed.

(** The loop over the files raises nothing. *)
Lemma scan_events_result w file_path e :
  (scan_events w file_path).1 <> Exc e.
Proof.
  unfold scan_events. destruct (exec w _) as [code out err|x|h]; [done| |done].
  by destruct (exn_cls x).
Qed.

Lemma chain_result {A} (f : A -> res unit * list event) (l : list A) e :
  (forall x, x ∈ l -> (f x).1 <> Exc e) -> (chain (map f l)).1 <> Exc e.
Proof.
  induction l as [|x l IH]; intros Hf; [done|].
  simpl. pose proof (Hf x ltac:(left)) as Hx.
  destruct (f x) as [[[]| |e'|h] evs]; simpl in *; try done.
  apply IH. intros y Hy. apply Hf. by right.
Qed.

Lemma files_events_result w root files e :
  (files_events w root files).1 <> Exc e.
Proof.
  apply chain_result. intros x _. unfold file_events.
  destruct (isfile w _); [apply scan_events_result|done].
Qed.

Lemma scan_files_exact w root files s :
  scan_files w root files s
  = ((files_events w root files).1,
     extend s (files_events w root files).2).
Proof.
  unfold scan_files, files_events.
  destruct (for_each_chain (fun s' => inaccessible_dirs s' = inaccessible_dirs s
                                       /\ dirs s' = dirs s)
              (file_events w root) (scan_file w root) files) with (s := s)
    as (s' & -> & [Hi Hd] & Ht); [|done|].
  - intros x s0 _ [Hi Hd]. rewrite scan_file_exact.
    eexists; split; [done|]. simpl. by rewrite Hi, Hd.
  - f_equal. destruct s'; unfold extend; simpl in *. by subst.
Qed.

Lemma visit_exact w root files s :
  root ∉ inaccessible_dirs s ->
  visit w root files s
  = ((files_events w root files).1,
     extend s (Consult root false :: (files_events w root files).2)).
Proof.
  intros Hroot. unfold visit, bind, consult.
  rewrite bool_decide_eq_false_2 by done.
  change (State _ _ (trace s ++ [Consult root false]))
    with (extend s [Consult root false]).
  unfold try_except. rewrite scan_files_exact, extend_extend.
  pose proof (files_events_result w root files) as Hf.
  destruct (files_events w root files).1 as [[]| |e|h]; try done.
  by destruct (Hf e).
Qed.

Lemma visit_pruned w root files s :
  root ∈ inaccessible_dirs s ->
  visit w root files s
  = (Val tt, State (inaccessible_dirs s) [] (trace s ++ [Consult root true])).
Proof.
  intros Hroot. unfold visit, bind, consult.
  by rewrite bool_decide_eq_true_2.
Qed.

Lemma elem_of_dirnames e (entries : list (string * node)) :
  e ∈ entries -> is_dir e.2 = true -> e.1 ∈ dirnames entries.
Proof.
  intros He Hd. unfold dirnames. apply list_elem_of_fmap.
  exists e. split; [done|]. by apply list_elem_of_filter.
Qed.

Lemma os_walk_Dir w top entries body :
  os_walk w top (Dir Listed entries) body
  = (set_dirs (dirnames entries) ;;
     body top (nondirnames entries) ;;
     ds <- get_dirs ;;
     for_each entries (fun e =>
       if is_dir e.2 && bool_decide (e.1 ∈ ds) then
         if too_deep w (Py.join top e.1) then raise recursion_error
         else if islink e.2 then ret tt
         else os_walk w (Py.join top e.1) e.2 body
       else ret tt)).
Proof. reflexivity. Qed.

(** The walk of the source from an empty set produces [walk_events] and
    leaves the set empty. *)
Lemma os_walk_exact w n :
  forall top s, inaccessible_dirs s = ∅ ->
    exists s', os_walk w top n (visit w) s = ((walk_events w top n).1, s')
               /\ inaccessible_dirs s' = ∅
               /\ trace s' = trace s ++ (walk_events w top n).2.
Proof.
  induction n as [ls entries IH| |] using node_ind; intros top s Hs;
    try (exists s; simpl; by rewrite app_nil_r).
  destruct ls as [|e]; [|exists s; simpl; by rewrite app_nil_r].
  rewrite os_walk_Dir.
  unfold bind at 1. unfold set_dirs at 1.
  unfold bind at 1. rewrite visit_exact by (simpl; rewrite Hs; set_solver).
  cbn [walk_events chain fst snd].
  destruct (files_events w top (nondirnames entries)) as [[[]| |e|h] fevs];
    cbn [fst snd chain];
    [|eexists; (split; [done|]); simpl; by rewrite Hs..].
  - unfold bind at 1, get_dirs at 1. cbn [dirs extend].
    match goal with |- context [for_each entries ?b ?s1] =>
      destruct (for_each_chain (fun s' => inaccessible_dirs s' = ∅)
        (fun e => if is_dir e.2 then
                    if too_deep w (Py.join top e.1)
                    then (Exc recursion_error, [])
                    else match e.2 with
                         | Dir _ _ => walk_events w (Py.join top e.1) e.2
                         | _ => (Val tt, [])
                         end
                  else (Val tt, [])) b entries) with (s := s1)
        as (s' & Hl & Hi & Ht)
    end.
    + intros x s0 Hx Hs0.
      rewrite Forall_forall in IH. specialize (IH x Hx).
      destruct x as [name child]; simpl in *.
      destruct child as [ls' entries'| |]; simpl.
      * rewrite bool_decide_eq_true_2
          by (by apply (elem_of_dirnames (name, Dir ls' entries'))).
        destruct (too_deep w _); [|by apply IH].
        exists s0. by rewrite app_nil_r.
      * rewrite bool_decide_eq_true_2
          by (by apply (elem_of_dirnames (name, DirLink))).
        destruct (too_deep w _); exists s0; by rewrite app_nil_r.
      * exists s0. by rewrite app_nil_r.
    + done.
    + exists s'. rewrite Hl, Ht. simpl. by rewrite <- app_assoc.
Qed.

Lemma audit_exact w start_path s :
  exists s', audit_files_with_clamav w start_path s
             = (run_result w start_path, s')
             /\ trace s' = trace s ++ run_events w start_path.
Proof.
  unfold audit_files_with_clamav, run_events, run_result, call.
  destruct (isdir w start_path); simpl; [|by eexists].
  unfold bind at 1, log at 1. rewrite emit_extend.
  unfold bind at 1, new_inaccessible_dirs at 1.
  unfold bind at 1.
  match goal with |- context [os_walk w ?t ?n ?b ?s1] =>
    destruct (os_walk_exact w n t s1) as (s' & -> & Hi & Ht); [done|]
  end.
  destruct (walk_events w start_path _) as [[[]| |e|h] evs]; simpl in *.
  - eexists. split; [done|]. simpl. rewrite Ht. by rewrite <- !app_assoc.
  - eexists. split; [done|]. rewrite Ht. by rewrite app_nil_r, <- app_assoc.
  - eexists. split; [done|]. rewrite Ht. by rewrite app_nil_r, <- app_assoc.
  - eexists. split; [done|]. rewrite Ht. by rewrite app_nil_r, <- app_assoc.
Qed.

Lemma run_exact w start_path :
  (run w start_path).1 = run_result w start_path
  /\ trace (run w start_path).2 = run_events w start_path.
Proof.
  unfold run. destruct (audit_exact w start_path initial) as (s' & -> & Ht).
  done.
Qed.

(** ** Properties of every event of a run *)

Lemma chain_Forall (Q : event -> Prop) parts :
  Forall (fun r => Forall Q r.2) parts -> Forall Q (chain parts).2.
Proof.
  induction 1 as [|[[[]| |e|h] evs] parts Hr _ IH]; simpl; [done| |done..].
  by apply Forall_app.
Qed.

Lemma files_events_Forall w (Q : event -> Prop) root files :
  (forall file_name, Forall Q (file_events w root file_name).2) ->
  Forall Q (files_events w root files).2.
Proof.
  intros Hfile. unfold files_events. apply chain_Forall.
  apply Forall_fmap, Forall_forall. intros x _. apply Hfile.
Qed.

Lemma walk_events_Forall w (Q : event -> Prop) :
  (forall top, Q (Consult top false)) ->
  (forall root file_name, Forall Q (file_events w root file_name).2) ->
  forall n top, Forall Q (walk_events w top n).2.
Proof.
  intros Hconsult Hfile.
  induction n as [ls entries IH| |] using node_ind; intros top;
    [|by constructor..].
  destruct ls; [|by constructor].
  cbn [walk_events]. apply chain_Forall.
  apply Forall_cons_2; [|apply Forall_cons_2]; simpl.
  - by repeat constructor.
  - by apply files_events_Forall.
  - apply Forall_fmap. eapply Forall_impl; [exact IH|].
    intros [name child] Hchild; simpl in *.
    destruct child; cbn [is_dir]; try destruct (too_deep w _); cbn [fst snd];
      by try constructor.
Qed.

Lemma run_events_Forall w (Q : event -> Prop) start_path :
  (forall top, Q (Consult top false)) ->
  (forall root file_name, Forall Q (file_events w root file_name).2) ->
  (forall msg, Q (Log INFO msg)) ->
  (forall msg, Q (Log ERROR msg)) ->
  Forall Q (run_events w start_path).
Proof.
  intros Hconsult Hfile Hinfo Herror. unfold run_events.
  destruct (isdir w start_path); [|by repeat constructor].
  constructor; [done|].
  apply Forall_app. split; [by apply walk_events_Forall|].
  destruct (walk_events _ _ _).1; by repeat constructor.
Qed.

Lemma classify_logs (Q : event -> Prop) file_path code out err :
  (forall lvl msg, lvl <> DEBUG -> Q (Log lvl msg)) ->
  Forall Q (classify file_path code out err).
Proof.
  intros Hlog. unfold classify.
  destruct (code =? 0); [|destruct (code =? 1)];
    repeat constructor; by apply Hlog.
Qed.

(** What an event predicate must allow to hold of every event of every
    run: consultations that miss, log records, and the launch of the
    scanner on a path that is a regular file. *)
Lemma file_events_Forall w (Q : event -> Prop) root file_name :
  (forall lvl msg, Q (Log lvl msg)) ->
  (forall file_path, isfile w file_path = true -> Q (Run (clamscan file_path))) ->
  Forall Q (file_events w root file_name).2.
Proof.
  intros Hlog Hrun. unfold file_events.
  destruct (isfile w _) eqn:Hfile; simpl; [|done].
  constructor; [done|]. unfold scan_events.
  destruct (exec w _) as [code out err|e|h]; simpl.
  - constructor; [by apply Hrun|]. by apply classify_logs.
  - destruct (exn_cls e); simpl; repeat constructor; auto.
  - repeat constructor; auto.
Qed.

(** ** The set during a run *)

Lemma for_each_preserves {A} (P : state -> Prop) (body : A -> M unit) l :
  (forall x s, x ∈ l -> P s -> P (body x s).2) ->
  forall s, P s -> P (for_each l body s).2.
Proof.
  induction l as [|x l IH]; intros Hbody s HP; [done|].
  rewrite for_each_cons. unfold bind.
  pose proof (Hbody x s ltac:(left) HP) as Hx.
  destruct (body x s) as [[[]| |e|h] s1]; simpl in *; try done.
  apply IH; [|done]. intros y s0 Hy. apply Hbody. by right.
Qed.

(** An invariant of the loop body that does not depend on [dirs] is an
    invariant of the whole walk. *)
Lemma os_walk_preserves w (P : state -> Prop) body :
  (forall l s, P s -> P (State (inaccessible_dirs s) l (trace s))) ->
  (forall root files s, P s -> P (body root files s).2) ->
  forall n top s, P s -> P (os_walk w top n body s).2.
Proof.
  intros Hdirs Hbody.
  induction n as [ls entries IH| |] using node_ind; intros top s HP; [|done..].
  destruct ls; [|done].
  rewrite os_walk_Dir. unfold bind at 1, set_dirs at 1. unfold bind at 1.
  pose proof (Hbody top (nondirnames entries) _ (Hdirs (dirnames entries) s HP))
    as Hb.
  destruct (body top _ _) as [[[]| |e|h] s1]; simpl in *; try done.
  unfold bind, get_dirs.
  apply for_each_preserves; [|done].
  intros x s0 Hx Hs0. rewrite Forall_forall in IH.
  destruct (_ && _); [|done].
  destruct (too_deep w _); [done|].
  destruct (islink _); [done|by apply IH].
Qed.

Lemma walk_handler_grows root e s :
  inaccessible_dirs s ⊆ inaccessible_dirs (walk_handler root e s).2.
Proof.
  unfold walk_handler.
  destruct (exn_cls e); simpl; set_solver.
Qed.

Lemma visit_set w root files s :
  inaccessible_dirs (visit w root files s).2 = inaccessible_dirs s.
Proof.
  destruct (decide (root ∈ inaccessible_dirs s)) as [Hin|Hout].
  - by rewrite visit_pruned.
  - by rewrite visit_exact.
Qed.

(** ** The missing scanner *)

Ltac each_event := repeat first [apply Forall_nil_2 | apply Forall_cons_2].
Ltac quiet_event := solve [split; [discriminate | intros ? [=]]].

Lemma classify_quiet w file_path code out err :
  Forall (quiet w) (classify file_path code out err).
Proof.
  unfold classify.
  destruct (code =? 0); [|destruct (code =? 1)]; each_event; quiet_event.
Qed.

Lemma scan_events_sound w file_path : sound w (scan_events w file_path).
Proof.
  assert (forall e, exec w (clamscan file_path) = e ->
            (forall x, e = SpawnFails x -> exn_cls x <> FileNotFoundError) ->
            quiet w (Run (clamscan file_path))) as Hrun.
  { intros e He Hx. split; [done|].
    intros c [= <-] (x & Hexec & Hcls). eapply Hx; [|done]. congruence. }
  unfold sound, scan_events.
  destruct (exec w (clamscan file_path)) as [code out err|e|h] eqn:Hexec.
  - simpl. constructor; [|apply classify_quiet].
    apply (Hrun _ eq_refl). intros x [=].
  - destruct (exn_cls e) eqn:Hcls; simpl.
    1: { exists [], (clamscan file_path). repeat split; [done|]. by exists e. }
    all: each_event; try quiet_event.
    all: apply (Hrun _ eq_refl); intros x [= <-]; congruence.
  - simpl. each_event. apply (Hrun _ eq_refl). intros x [=].
Qed.

Lemma sound_prepend w evs0 go_on evs :
  Forall (quiet w) evs0 -> sound w (go_on, evs) -> sound w (go_on, evs0 ++ evs).
Proof.
  intros H0. unfold sound; simpl. destruct go_on as [[]| |e|h].
  - intros. by apply Forall_app.
  - intros (pre & c & -> & Hpre & Hc).
    exists (evs0 ++ pre), c. rewrite app_assoc.
    split; [done|]. split; [by apply Forall_app|done].
  - intros. by apply Forall_app.
  - intros. by apply Forall_app.
Qed.

Lemma file_events_sound w root file_name : sound w (file_events w root file_name).
Proof.
  unfold file_events. destruct (isfile w _); [|by constructor].
  pose proof (scan_events_sound w (Py.join root file_name)) as Hs.
  destruct (scan_events w _) as [go_on evs].
  apply (sound_prepend w [_]); [|done].
  each_event. quiet_event.
Qed.

Lemma chain_sound w parts : Forall (sound w) parts -> sound w (chain parts).
Proof.
  induction 1 as [|[[[]| |e|h] evs] parts Hr _ IH]; simpl.
  - by constructor.
  - destruct (chain parts) as [go_on evs']. by apply sound_prepend.
  - done.
  - done.
  - done.
Qed.

Lemma walk_events_sound w n : forall top, sound w (walk_events w top n).
Proof.
  induction n as [ls entries IH| |] using node_ind; intros top;
    [|by constructor..].
  destruct ls; [|by constructor].
  cbn [walk_events]. apply chain_sound.
  apply Forall_cons_2; [|apply Forall_cons_2].
  - each_event. quiet_event.
  - apply chain_sound, Forall_fmap, Forall_forall.
    intros x _. apply file_events_sound.
  - apply Forall_fmap. eapply Forall_impl; [exact IH|].
    intros [name child] Hchild; simpl in *.
    destruct child; cbn [is_dir]; try destruct (too_deep w _); cbn [fst snd];
      by try constructor.
Qed.



(** ** Paths *)

Lemma append_cons c s t : String c s +:+ t = String c (s +:+ t).
Proof. reflexivity. Qed.

Lemma append_assoc s t u : (s +:+ t) +:+ u = s +:+ t +:+ u.
Proof. induction s as [|c s IH]; [done|]. rewrite !append_cons. by f_equal. Qed.

Lemma append_empty_r s : s +:+ "" = s.
Proof. induction s as [|c s IH]; [done|]. rewrite append_cons. by f_equal. Qed.

Lemma chars_append s t :
  list_ascii_of_string (s +:+ t)
  = list_ascii_of_string s ++ list_ascii_of_string t.
Proof. induction s as [|c s IH]; [done|]. rewrite append_cons. simpl. by f_equal. Qed.

Lemma chars_inj s t : list_ascii_of_string s = list_ascii_of_string t -> s = t.
Proof.
  intros H. rewrite <- (string_of_list_ascii_of_string s),
    <- (string_of_list_ascii_of_string t). by f_equal.
Qed.

Lemma name_ok_spec name :
  name_ok name = true ->
  name <> "" /\ Py.sep ∉ list_ascii_of_string name.
Proof.
  unfold name_ok. intros [Hne Hsep]%andb_true_iff.
  split; [by destruct name|]. by apply bool_decide_eq_true in Hsep.
Qed.

Lemma endswith_sep_append s name :
  name <> "" -> Py.sep ∉ list_ascii_of_string name ->
  Py.endswith_sep (s +:+ name) = false.
Proof.
  intros Hne Hsep.
  assert (Py.endswith_sep name = false) as Hname.
  { clear Hne. induction name as [|c name IH]; [done|]. simpl in *.
    apply not_elem_of_cons in Hsep as [Hc Hsep].
    destruct name.
    - by apply bool_decide_eq_false.
    - by apply IH. }
  induction s as [|c s IH]; [done|].
  rewrite append_cons. simpl.
  destruct (s +:+ name) eqn:Heq; [|done].
  by destruct s, name.
Qed.

Lemma join_base top name :
  name_ok name = true -> Py.join top name = base top +:+ name.
Proof.
  intros [Hne Hsep]%name_ok_spec. unfold Py.join, base.
  assert (Py.startswith_sep name = false) as ->.
  { destruct name; [done|]. simpl. apply bool_decide_eq_false. set_solver. }
  simpl. destruct (Py.is_empty top); [done|].
  destruct (Py.endswith_sep top); [done|]. by rewrite append_assoc.
Qed.

Lemma base_join top name :
  name_ok name = true ->
  base (Py.join top name) = base top +:+ name +:+ "/".
Proof.
  intros Hok. rewrite join_base by done.
  destruct (name_ok_spec name Hok) as [Hne Hsep].
  unfold base at 1. rewrite endswith_sep_append by done.
  assert (Py.is_empty (base top +:+ name) = false) as ->.
  { destruct (base top); destruct name; done. }
  by rewrite append_assoc.
Qed.

(** Two names without separator that start the same path are equal. *)
Lemma first_name_unique c1 c2 r1 r2 :
  Py.sep ∉ list_ascii_of_string c1 -> Py.sep ∉ list_ascii_of_string c2 ->
  c1 +:+ "/" +:+ r1 = c2 +:+ "/" +:+ r2 -> c1 = c2.
Proof.
  revert c2. induction c1 as [|a c1 IH]; intros [|b c2] H1 H2 Heq; [done|..].
  - rewrite append_cons in Heq. injection Heq as Hb _. set_solver.
  - rewrite append_cons in Heq. injection Heq as Ha _. set_solver.
  - rewrite !append_cons in Heq. injection Heq as -> Heq.
    f_equal. apply IH; [set_solver..|done].
Qed.

Lemma name_not_below f c r :
  Py.sep ∉ list_ascii_of_string f -> f <> c +:+ "/" +:+ r.
Proof.
  intros Hsep ->. apply Hsep. rewrite !chars_append. set_solver.
Qed.

(** ** The files a walk reaches *)

Lemma well_formed_Dir ls entries :
  well_formed (Dir ls entries) = true ->
  NoDup entries.*1
  /\ Forall (fun e => name_ok e.1 = true /\ well_formed e.2 = true) entries.
Proof.
  simpl. intros [Hnd Hall]%andb_true_iff. split.
  - by apply bool_decide_eq_true in Hnd.
  - apply Forall_forall. intros e He%list_elem_of_In.
    rewrite forallb_forall in Hall. by apply andb_true_iff, Hall.
Qed.

Lemma elem_of_nondirnames f (entries : list (string * node)) :
  f ∈ nondirnames entries -> exists e, e ∈ entries /\ e.1 = f.
Proof.
  unfold nondirnames. intros (e & -> & He%list_elem_of_filter)%list_elem_of_fmap.
  exists e. by destruct He.
Qed.

Lemma elem_of_regular_files w root files p :
  p ∈ regular_files w root files ->
  exists f, f ∈ files /\ p = Py.join root f /\ isfile w p = true.
Proof.
  unfold regular_files.
  intros [Hp (f & -> & Hf)%list_elem_of_fmap]%list_elem_of_filter.
  by exists f.
Qed.

Lemma elem_of_children {B} (g : string * node -> list B) entries (x : B) :
  x ∈ concat (map g entries) <-> exists e, e ∈ entries /\ x ∈ g e.
Proof.
  induction entries as [|e entries IH]; simpl.
  - split; [by intros ?%elem_of_nil|by intros (e & ?%elem_of_nil & _)].
  - rewrite elem_of_app, IH. split.
    + intros [He|(e' & He' & Hx)]; [exists e; split; [left|done]|].
      exists e'. split; [by right|done].
    + intros (e' & [->|He']%elem_of_cons & Hx); [by left|].
      right. by exists e'.
Qed.

(** Every file reached from [top] lies below [top]. *)
Lemma reachable_base w n :
  forall top p, well_formed n = true -> p ∈ reachable_files w top n ->
    exists r, p = base top +:+ r.
Proof.
  induction n as [ls entries IH| |] using node_ind; intros top p Hwf Hp;
    [|by apply elem_of_nil in Hp..].
  destruct ls; [|by apply elem_of_nil in Hp].
  destruct (well_formed_Dir _ _ Hwf) as [_ Hall].
  rewrite Forall_forall in Hall, IH.
  cbn [reachable_files] in Hp. apply elem_of_app in Hp as [Hp|Hp].
  - apply elem_of_regular_files in Hp as (f & Hf & -> & _).
    apply elem_of_nondirnames in Hf as (e & He & <-).
    exists e.1. apply join_base. by apply Hall.
  - apply elem_of_children in Hp as (e & He & Hp).
    destruct (Hall e He) as [Hname Hchild].
    destruct e as [name child]; simpl in *.
    destruct child as [ls' entries'| |]; try by apply elem_of_nil in Hp.
    destruct (IH _ He (Py.join top name) p Hchild Hp) as [r ->].
    rewrite base_join by done. exists (name +:+ "/" +:+ r).
    by rewrite !append_assoc.
Qed.

Lemma reachable_below w top name child p :
  name_ok name = true -> well_formed child = true ->
  p ∈ reachable_files w (Py.join top name) child ->
  exists r, p = base top +:+ name +:+ "/" +:+ r.
Proof.
  intros Hname Hchild Hp.
  destruct (reachable_base w child _ p Hchild Hp) as [r ->].
  exists r. rewrite base_join by done. by rewrite !append_assoc.
Qed.

Lemma NoDup_children {B} (g : string * node -> list B) entries :
  NoDup entries.*1 ->
  Forall (fun e => NoDup (g e)) entries ->
  (forall e e' x, e ∈ entries -> e' ∈ entries -> x ∈ g e -> x ∈ g e' -> e.1 = e'.1) ->
  NoDup (concat (map g entries)).
Proof.
  induction entries as [|e entries IH]; intros Hnames Heach Hsep; simpl.
  - constructor.
  - apply NoDup_cons in Hnames as [He Hnames].
    apply Forall_cons in Heach as [Hg Heach].
    apply NoDup_app. split; [done|]. split.
    + intros x Hx (e' & He' & Hx')%elem_of_children.
      apply He. rewrite (Hsep e e' x); [|by left|by right|done..].
      by apply list_elem_of_fmap_2.
    + apply IH; [done..|].
      intros e1 e2 x H1 H2. apply Hsep; by right.
Qed.

Lemma NoDup_reachable_files w n :
  forall top, well_formed n = true -> NoDup (reachable_files w top n).
Proof.
  induction n as [ls entries IH| |] using node_ind; intros top Hwf;
    [|by constructor..].
  destruct ls; [|by constructor].
  destruct (well_formed_Dir _ _ Hwf) as [Hnames Hall].
  rewrite Forall_forall in Hall, IH.
  cbn [reachable_files]. apply NoDup_app. split; [|split].
  - unfold regular_files. apply NoDup_filter.
    apply NoDup_fmap_2_strong.
    + intros f1 f2 (e1 & He1 & <-)%elem_of_nondirnames
        (e2 & He2 & <-)%elem_of_nondirnames.
      rewrite !join_base by by apply Hall.
      apply String.app_inj.
    + unfold nondirnames. apply (sublist_NoDup _ entries.*1); [done|].
      apply fmap_sublist, sublist_filter.
  - intros p (f & Hf & -> & _)%elem_of_regular_files
      (e & He & Hp)%elem_of_children.
    apply elem_of_nondirnames in Hf as (e0 & He0 & <-).
    destruct (Hall e He) as [Hname Hchild].
    destruct e as [name child]; simpl in *.
    destruct child as [ls' entries'| |]; try by apply elem_of_nil in Hp.
    destruct (reachable_below w top name _ _ Hname Hchild Hp) as [r Hr].
    rewrite join_base in Hr by by apply Hall.
    apply String.app_inj in Hr. revert Hr. apply name_not_below.
    by apply name_ok_spec, Hall.
  - apply NoDup_children; [done| |].
    + apply Forall_forall. intros [name child] He.
      destruct (Hall _ He) as [Hname Hchild]. simpl in *.
      destruct child; try by constructor. by apply (IH _ He).
    + intros [n1 c1] [n2 c2] p He1 He2 Hp1 Hp2. simpl in *.
      destruct (Hall _ He1) as [Hn1 Hc1], (Hall _ He2) as [Hn2 Hc2].
      simpl in *.
      destruct c1; try by apply elem_of_nil in Hp1.
      destruct c2; try by apply elem_of_nil in Hp2.
      destruct (reachable_below w top n1 _ _ Hn1 Hc1 Hp1) as [r1 ->].
      destruct (reachable_below w top n2 _ _ Hn2 Hc2 Hp2) as [r2 Hr].
      apply String.app_inj in Hr.
      eapply first_name_unique; [by apply name_ok_spec..|done].
Qed.

(** ** The records of the scans *)

Lemma blocks_app w fs1 evs1 fs2 evs2 :
  blocks w fs1 evs1 -> blocks w fs2 evs2 ->
  blocks w (fs1 ++ fs2) (evs1 ++ evs2).
Proof.
  induction 1 as [|root fs evs _ IH|f fs evs _ IH]; intros H2; simpl.
  - done.
  - constructor. by apply IH.
  - rewrite <- app_assoc. constructor. by apply IH.
Qed.

Lemma covers_chain_cons w fs1 r fs2 parts :
  covers w fs1 r -> covers w fs2 (chain parts) ->
  covers w (fs1 ++ fs2) (chain (r :: parts)).
Proof.
  intros (s1 & Hb1 & H1) (s2 & Hb2 & H2).
  destruct r as [[[]| |e|h] evs]; simpl in *.
  - subst s1. exists (fs1 ++ s2). split; [by apply blocks_app|].
    destruct (chain parts).1 as [[]| |e|h]; [by subst| |by apply prefix_app..].
    destruct H2 as (Hpre & f & Hf & Hl). split; [by apply prefix_app|].
    exists f. split; [|done]. apply elem_of_app. by right.
  - exists s1. split; [done|].
    destruct H1 as (Hpre & f & Hf & Hl). split; [by apply prefix_app_r|].
    by exists f.
  - exists s1. split; [done|]. by apply prefix_app_r.
  - exists s1. split; [done|]. by apply prefix_app_r.
Qed.

Lemma covers_chain_map {A} w (g : A -> list string)
    (f : A -> res unit * list event) l :
  (forall x, x ∈ l -> covers w (g x) (f x)) ->
  covers w (concat (map g l)) (chain (map f l)).
Proof.
  induction l as [|x l IH]; intros Hl.
  - exists []. split; [constructor|done].
  - cbn [map concat]. apply covers_chain_cons; [apply Hl; by left|].
    apply IH. intros y Hy. apply Hl. by right.
Qed.

Lemma scan_events_fails w f :
  (scan_events w f).1 = Ret -> launches w f = false.
Proof.
  unfold scan_events, launches.
  destruct (exec w (clamscan f)) as [|e|h]; [done| |done].
  by destruct (exn_cls e).
Qed.

Lemma file_events_covers w root file_name :
  covers w (if isfile w (Py.join root file_name) then [Py.join root file_name]
            else [])
    (file_events w root file_name).
Proof.
  unfold file_events. destruct (isfile w _).
  - exists [Py.join root file_name]. split.
    + simpl. rewrite <- (app_nil_r (scan_events _ _).2).
      constructor. constructor.
    + simpl. destruct (scan_events w _).1 as [[]| |e|h] eqn:Hgo; [done| |done..].
      split; [done|]. exists (Py.join root file_name).
      split; [by left|]. by apply scan_events_fails.
  - exists []. split; [constructor|done].
Qed.

Lemma regular_files_concat w root files :
  regular_files w root files
  = concat (map (fun f => if isfile w (Py.join root f) then [Py.join root f]
                          else []) files).
Proof.
  unfold regular_files. induction files as [|f files IH]; [done|].
  rewrite fmap_cons, filter_cons. cbn [map concat]. rewrite <- IH.
  destruct (isfile w (Py.join root f)); by case_decide.
Qed.

Lemma files_events_covers w root files :
  covers w (regular_files w root files) (files_events w root files).
Proof.
  rewrite regular_files_concat. unfold files_events.
  apply covers_chain_map. intros f _. apply file_events_covers.
Qed.

Lemma walk_events_covers w n :
  forall top, covers w (reachable_files w top n) (walk_events w top n).
Proof.
  induction n as [ls entries IH| |] using node_ind; intros top;
    try (exists []; split; [constructor|done]).
  destruct ls; [|exists []; split; [constructor|done]].
  cbn [walk_events reachable_files].
  apply (covers_chain_cons w [] (Val tt, [Consult top false])).
  { exists []. split; [repeat constructor|done]. }
  match goal with |- covers _ _ (chain (?r :: map ?f _)) =>
    apply (covers_chain_cons w _ r _ (map f entries))
  end.
  { apply files_events_covers. }
  apply covers_chain_map. intros [name child] He.
  rewrite Forall_forall in IH. specialize (IH _ He). simpl in *.
  destruct child; cbn [is_dir]; try destruct (too_deep w _);
    try (exists []; split; [constructor|first [done|apply prefix_nil]]).
  apply IH.
Qed.

Lemma runs_app t1 t2 : runs (t1 ++ t2) = runs t1 ++ runs t2.
Proof. apply omap_app. Qed.

Lemma runs_classify file_path code out err :
  runs (classify file_path code out err) = [].
Proof.
  unfold classify. destruct (code =? 0); [|destruct (code =? 1)]; done.
Qed.

Lemma runs_scan_events w f : runs (scan_events w f).2 = [clamscan f].
Proof.
  unfold scan_events. destruct (exec w _) as [code out err|e|h]; simpl.
  - change (runs (Run (clamscan f) :: ?l)) with (clamscan f :: runs l).
    by rewrite runs_classify.
  - by destruct (exn_cls e).
  - done.
Qed.

Lemma blocks_runs w fs evs : blocks w fs evs -> runs evs = clamscan <$> fs.
Proof.
  induction 1 as [|root fs evs _ IH|f fs evs _ IH]; [done..|].
  change (runs (Log ?l ?m :: ?t)) with (runs t).
  by rewrite runs_app, runs_scan_events, IH.
Qed.

(** ** Classification records *)

Lemma uint_no_space d :
  " "%char ∉ list_ascii_of_string (NilEmpty.string_of_uint d).
Proof.
  induction d; simpl; [by apply not_elem_of_nil|..];
    (apply not_elem_of_cons; split; [discriminate|done]).
Qed.

Lemma str_int_no_space code :
  " "%char ∉ list_ascii_of_string (Py.str_int code).
Proof.
  unfold Py.str_int, NilZero.string_of_int, NilZero.string_of_uint.
  destruct (Z.to_int code) as [d|d]; simpl.
  - destruct d; try apply uint_no_space.
    apply not_elem_of_cons. split; [discriminate|apply not_elem_of_nil].
  - apply not_elem_of_cons. split; [discriminate|].
    destruct d; try apply uint_no_space.
    apply not_elem_of_cons. split; [discriminate|apply not_elem_of_nil].
Qed.

(** A list splits in one way at the last occurrence of an element. *)
Lemma last_split {A} (x : A) l1 r1 l2 r2 :
  x ∉ r1 -> x ∉ r2 -> l1 ++ x :: r1 = l2 ++ x :: r2 -> l1 = l2 /\ r1 = r2.
Proof.
  revert l2. induction l1 as [|a l1 IH]; intros [|b l2] H1 H2 Heq;
    simplify_eq/=.
  - done.
  - exfalso. apply H1. apply elem_of_app. right. by left.
  - exfalso. apply H2. apply elem_of_app. right. by left.
  - destruct (IH l2 H1 H2) as [-> ->]; done.
Qed.

Lemma scan_error_line_inj f g c c' :
  scan_error_line f c = scan_error_line g c' -> f = g.
Proof.
  unfold scan_error_line. intros Heq%String.app_inj.
  apply (f_equal list_ascii_of_string) in Heq.
  rewrite !chars_append in Heq.
  change (list_ascii_of_string " (Return Code: ")
    with (list_ascii_of_string " (Return Code:" ++ [" "%char]) in Heq.
  rewrite <- !(app_assoc _ [" "%char]), !app_assoc in Heq.
  rewrite <- !(app_assoc _ [" "%char]) in Heq. simpl in Heq.
  apply app_inv_tail in Heq.
  apply (last_split " "%char) in Heq as [Heq _];
    [|apply str_int_no_space..].
  apply app_inv_tail in Heq. by apply chars_inj.
Qed.

Lemma classifies_clean f g : classifies f (Log INFO ("CLEAN: " +:+ g)) -> f = g.
Proof.
  intros [[= Heq]|[[=]|[code [=]]]]. by apply String.app_inj in Heq.
Qed.

Lemma classifies_infected f g :
  classifies f (Log WARNING ("INFECTED: " +:+ g)) -> f = g.
Proof.
  intros [[=]|[[= Heq]|[code [=]]]]. by apply String.app_inj in Heq.
Qed.

Lemma classifies_scan_error f g code :
  classifies f (Log ERROR (scan_error_line g code)) -> f = g.
Proof.
  intros [[=]|[[=]|[code' Heq]]].
  apply (f_equal (fun e => match e with Log _ msg => msg | _ => "" end)) in Heq.
  symmetry. by eapply scan_error_line_inj.
Qed.

Ltac unclassified :=
  solve [intros [[=]|[[=]|[? [=]]]]].

Lemma classify_other f g code out err :
  f <> g -> Forall (fun e => ~ classifies f e) (classify g code out err).
Proof.
  intros Hne. unfold classify.
  destruct (code =? 0); [|destruct (code =? 1)]; each_event;
    try unclassified.
  - by intros ?%classifies_clean.
  - by intros ?%classifies_infected.
  - by intros ?%classifies_scan_error.
Qed.

Lemma scan_events_other w f g :
  f <> g -> Forall (fun e => ~ classifies f e) (scan_events w g).2.
Proof.
  intros Hne. unfold scan_events.
  destruct (exec w _) as [code out err|e|h]; simpl.
  - constructor; [unclassified|by apply classify_other].
  - destruct (exn_cls e); simpl; each_event; unclassified.
  - each_event. unclassified.
Qed.

Lemma blocks_unclassified w fs evs f :
  blocks w fs evs -> f ∉ fs -> Forall (fun e => ~ classifies f e) evs.
Proof.
  induction 1 as [|root fs evs _ IH|g fs evs _ IH]; intros Hf.
  - constructor.
  - constructor; [unclassified|by apply IH].
  - apply not_elem_of_cons in Hf as [Hne Hf].
    constructor; [unclassified|]. apply Forall_app.
    split; [by apply scan_events_other|by apply IH].
Qed.

Lemma classify_once f code out err :
  exists e post,
    classify f code out err = e :: post /\ classifies f e
    /\ Forall (fun e' => ~ classifies f e') post.
Proof.
  unfold classify.
  destruct (code =? 0); [|destruct (code =? 1)]; eexists _, _;
    (split; [done|]); split.
  - by left.
  - constructor.
  - right. by left.
  - each_event. unclassified.
  - right. right. by exists code.
  - each_event. unclassified.
Qed.

Lemma classified_once_grow t f pre post :
  Forall (fun e => ~ classifies f e) pre ->
  Forall (fun e => ~ classifies f e) post ->
  classified_once t f -> classified_once (pre ++ t ++ post) f.
Proof.
  intros Hpre Hpost (pre' & e & post' & -> & He & Hrest).
  apply Forall_app in Hrest as [Hpre' Hpost'].
  exists (pre ++ pre'), e, (post' ++ post).
  split; [by rewrite <- !app_assoc|]. split; [done|].
  by rewrite !Forall_app.
Qed.

Lemma blocks_classified_once w fs evs f :
  blocks w fs evs -> NoDup fs -> f ∈ fs -> launches w f = true ->
  classified_once evs f.
Proof.
  induction 1 as [|root fs evs _ IH|g fs evs Hb IH]; intros Hnd Hf Hl.
  - by apply elem_of_nil in Hf.
  - specialize (IH Hnd Hf Hl).
    apply (classified_once_grow evs f [Consult root false] []) in IH; try done.
    + by rewrite app_nil_r in IH.
    + each_event. unclassified.
  - apply NoDup_cons in Hnd as [Hg Hnd].
    destruct (decide (f = g)) as [->|Hne].
    + unfold launches in Hl. unfold scan_events.
      destruct (exec w (clamscan g)) as [code out err| |]; [|done..]. simpl.
      destruct (classify_once g code out err) as (e & post & -> & He & Hpost).
      exists [Log DEBUG ("Scanning: " +:+ g); Run (clamscan g)], e, (post ++ evs).
      split; [done|]. split; [done|].
      each_event; try unclassified.
      apply Forall_app. split; [done|]. by eapply blocks_unclassified.
    + apply elem_of_cons in Hf as [?|Hf]; [done|].
      specialize (IH Hnd Hf Hl).
      apply (classified_once_grow evs f
               (Log DEBUG ("Scanning: " +:+ g) :: (scan_events w g).2) [])
        in IH; try done.
      * by rewrite app_nil_r in IH.
      * constructor; [unclassified|]. by apply scan_events_other.
Qed.

Lemma elem_of_runs c t : c ∈ runs t <-> Run c ∈ t.
Proof.
  unfold runs. rewrite list_elem_of_omap. split.
  - intros ([] & He & [= ->]). done.
  - intros He. by exists (Run c).
Qed.

Lemma classified_once_elem t f :
  classified_once t f -> exists e, e ∈ t /\ classifies f e.
Proof.
  intros (pre & e & post & -> & He & _). exists e. split; [|done].
  apply elem_of_app. right. by left.
Qed.

Lemma NoDup_prefix {A} (l k : list A) : l `prefix_of` k -> NoDup k -> NoDup l.
Proof. intros [k' ->] Hk. by apply NoDup_app in Hk as [? _]. Qed.

(** The launches of a walk are the scanner on distinct reachable files. *)
Lemma walk_events_runs w top n :
  well_formed n = true ->
  exists scanned,
    blocks w scanned (walk_events w top n).2
    /\ NoDup scanned
    /\ (forall f, f ∈ scanned -> f ∈ reachable_files w top n)
    /\ ((walk_events w top n).1 = Val tt ->
        scanned = reachable_files w top n).
Proof.
  intros Hwf. pose proof (NoDup_reachable_files w n top Hwf) as Hnd.
  destruct (walk_events_covers w n top) as (scanned & Hb & Hs).
  exists scanned. split; [done|].
  destruct (walk_events w top n).1 as [[]| |e|h].
  - subst scanned. done.
  - destruct Hs as (Hpre & f & Hf & Hl).
    split; [by eapply NoDup_prefix|].
    split; [by intros g Hg; apply (elem_of_prefix scanned)|done].
  - split; [by eapply NoDup_prefix|].
    split; [by intros g Hg; apply (elem_of_prefix scanned)|done].
  - split; [by eapply NoDup_prefix|].
    split; [by intros g Hg; apply (elem_of_prefix scanned)|done].
Qed.

(** ** The directories a walk yields *)

Lemma consulted_chain parts ks :
  Forall2 (fun r k => consulted r.2 `sublist_of` k) parts ks ->
  consulted (chain parts).2 `sublist_of` concat ks.
Proof.
  induction 1 as [|[[[]| |e|h] evs] k parts ks Hr _ IH]; simpl in *.
  - done.
  - unfold consulted. rewrite omap_app. by apply sublist_app.
  - by apply sublist_inserts_r.
  - by apply sublist_inserts_r.
  - by apply sublist_inserts_r.
Qed.

Lemma consulted_none t :
  Forall (fun e => match e with Consult _ _ => False | _ => True end) t ->
  consulted t = [].
Proof. induction 1 as [|[] t He _ IH]; done. Qed.

Lemma consulted_files_events w root files :
  consulted (files_events w root files).2 = [].
Proof.
  apply consulted_none, files_events_Forall.
  intros file_name. by apply file_events_Forall.
Qed.

Lemma consulted_walk_events w n :
  forall top, consulted (walk_events w top n).2 `sublist_of` listed_dirs top n.
Proof.
  induction n as [ls entries IH| |] using node_ind; intros top; [|done..].
  destruct ls; [|done].
  cbn [walk_events listed_dirs].
  match goal with |- _ `sublist_of` ?t :: concat (map ?g _) =>
    apply (consulted_chain _ ([t] :: [] :: map g entries))
  end.
  repeat apply Forall2_cons_2; simpl.
  - done.
  - by rewrite consulted_files_events.
  - apply Forall2_fmap, Forall_Forall2_diag.
    eapply Forall_impl; [exact IH|].
    intros [name child] Hchild; simpl in *.
    destruct child; cbn [is_dir]; try destruct (too_deep w _); cbn [fst snd];
      first [done|apply sublist_nil_l].
Qed.

Lemma base_extends top x : x <> "" -> top <> base top +:+ x.
Proof.
  intros Hx Heq. apply Hx. unfold base in Heq.
  destruct (Py.is_empty top) eqn:Hempty; [by destruct top|].
  apply (f_equal list_ascii_of_string) in Heq.
  destruct (Py.endswith_sep top); rewrite !chars_append in Heq.
  - rewrite <- (app_nil_r (list_ascii_of_string top)) in Heq at 1.
    apply app_inv_head in Heq. by destruct x.
  - rewrite <- (app_nil_r (list_ascii_of_string top)) in Heq at 1.
    rewrite <- app_assoc in Heq. by apply app_inv_head in Heq.
Qed.

Lemma listed_base n :
  forall top p, well_formed n = true -> p ∈ listed_dirs top n ->
    p = top \/ exists r, p = base top +:+ r /\ r <> "".
Proof.
  induction n as [ls entries IH| |] using node_ind; intros top p Hwf Hp;
    [|by apply elem_of_nil in Hp..].
  destruct ls; [|by apply elem_of_nil in Hp].
  destruct (well_formed_Dir _ _ Hwf) as [_ Hall].
  rewrite Forall_forall in Hall, IH.
  cbn [listed_dirs] in Hp. apply elem_of_cons in Hp as [Hp|Hp]; [by left|].
  right. apply elem_of_children in Hp as (e & He & Hp).
  destruct (Hall e He) as [Hname Hchild].
  destruct e as [name child]; simpl in *.
  destruct child as [ls' entries'| |]; try by apply elem_of_nil in Hp.
  destruct (IH _ He (Py.join top name) p Hchild Hp) as [->|(r & -> & Hr)].
  - exists name. split; [by apply join_base|]. by apply name_ok_spec.
  - exists (name +:+ "/" +:+ r). rewrite base_join by done.
    split; [by rewrite !append_assoc|]. by destruct name.
Qed.

Lemma listed_below top name child p :
  name_ok name = true -> well_formed child = true ->
  p ∈ listed_dirs (Py.join top name) child ->
  exists r, p = base top +:+ name +:+ r /\ (r = "" \/ exists r', r = "/" +:+ r').
Proof.
  intros Hname Hchild Hp.
  destruct (listed_base child _ p Hchild Hp) as [->|(r & -> & _)].
  - exists "". split; [|by left]. rewrite join_base by done.
    by rewrite append_empty_r.
  - exists ("/" +:+ r). split; [|right; by exists r].
    rewrite base_join by done. by rewrite !append_assoc.
Qed.

Lemma name_unique c1 c2 r1 r2 :
  Py.sep ∉ list_ascii_of_string c1 -> Py.sep ∉ list_ascii_of_string c2 ->
  (r1 = "" \/ exists r', r1 = "/" +:+ r') ->
  (r2 = "" \/ exists r', r2 = "/" +:+ r') ->
  c1 +:+ r1 = c2 +:+ r2 -> c1 = c2.
Proof.
  revert c2. induction c1 as [|a c1 IH]; intros [|b c2] H1 H2 Hr1 Hr2 Heq;
    [done|..].
  - exfalso. apply H2. destruct Hr1 as [->|[r' ->]]; simplify_eq/=. by left.
  - exfalso. apply H1. destruct Hr2 as [->|[r' ->]]; simplify_eq/=. by left.
  - rewrite !append_cons in Heq. injection Heq as -> Heq.
    apply not_elem_of_cons in H1 as [_ H1], H2 as [_ H2].
    f_equal. by apply IH.
Qed.

Lemma NoDup_listed_dirs n :
  forall top, well_formed n = true -> NoDup (listed_dirs top n).
Proof.
  induction n as [ls entries IH| |] using node_ind; intros top Hwf;
    [|by constructor..].
  destruct ls; [|by constructor].
  destruct (well_formed_Dir _ _ Hwf) as [Hnames Hall].
  rewrite Forall_forall in Hall, IH.
  cbn [listed_dirs]. apply NoDup_cons. split.
  - intros (e & He & Hp)%elem_of_children.
    destruct (Hall e He) as [Hname Hchild].
    destruct e as [name child]; simpl in *.
    destruct child as [ls' entries'| |]; try by apply elem_of_nil in Hp.
    destruct (listed_below top name _ _ Hname Hchild Hp) as (r & Hr & _).
    revert Hr. apply base_extends.
    apply name_ok_spec in Hname as [Hne _]. by destruct name.
  - apply NoDup_children; [done| |].
    + apply Forall_forall. intros [name child] He.
      destruct (Hall _ He) as [Hname Hchild]. simpl in *.
      destruct child; try by constructor. by apply (IH _ He).
    + intros [n1 c1] [n2 c2] p He1 He2 Hp1 Hp2. simpl in *.
      destruct (Hall _ He1) as [Hn1 Hc1], (Hall _ He2) as [Hn2 Hc2].
      simpl in *.
      destruct c1; try by apply elem_of_nil in Hp1.
      destruct c2; try by apply elem_of_nil in Hp2.
      destruct (listed_below top n1 _ _ Hn1 Hc1 Hp1) as (r1 & -> & Hr1).
      destruct (listed_below top n2 _ _ Hn2 Hc2 Hp2) as (r2 & Hr & Hr2).
      apply String.app_inj in Hr.
      apply name_ok_spec in Hn1 as [_ Hn1], Hn2 as [_ Hn2].
      by apply (name_unique n1 n2 r1 r2).
Qed.

(** ** The handler of [PermissionError] *)

(** No run reaches lines 85-87: no warning about a directory is logged and
    the set is empty when the call returns. *)
Lemma permission_handler_unreachable w start_path s :
  Forall no_permission_warning (run_events w start_path)
  /\ inaccessible_dirs (audit_files_with_clamav w start_path s).2
     = if isdir w start_path then ∅ else inaccessible_dirs s.
Proof.
  split.
  - apply run_events_Forall; try done.
    intros root file_name. unfold file_events.
    destruct (isfile w _); simpl; [|done]. constructor; [done|].
    unfold scan_events. destruct (exec w _) as [code out err|e|h]; simpl.
    + constructor; [done|]. unfold classify.
      destruct (code =? 0); [|destruct (code =? 1)]; each_event;
        try done; intros root'; discriminate.
    + by destruct (exn_cls e); simpl; each_event.
    + by each_event.
  - unfold audit_files_with_clamav, call.
    destruct (isdir w start_path); simpl; [|done].
    unfold bind at 1, log at 1. rewrite emit_extend.
    unfold bind at 1, new_inaccessible_dirs at 1. unfold bind at 1.
    match goal with |- context [os_walk w ?t ?n ?b ?s1] =>
      destruct (os_walk_exact w n t s1) as (s' & -> & Hi & Ht); [done|]
    end.
    by destruct (walk_events w start_path _).1.
Qed.

(** ** How a call ends *)

Lemma sound_Ret w r :
  sound w r -> (r.1 = Ret <-> exists c, Run c ∈ r.2 /\ not_found w c).
Proof.
  assert (forall evs, Forall (quiet w) evs ->
            ~ exists c, Run c ∈ evs /\ not_found w c) as Hquiet.
  { intros evs Hs (c & Hc & Hnf). rewrite Forall_forall in Hs.
    destruct (Hs _ Hc) as [_ Hq]. by apply (Hq c). }
  destruct r as [[[]| |e|h] evs]; unfold sound; simpl; intros Hs.
  - split; [done|]. intros H. by destruct (Hquiet evs Hs).
  - split; [|done]. intros _. destruct Hs as (pre & c & -> & _ & Hc).
    exists c. split; [|done]. apply elem_of_app. right. by left.
  - split; [done|]. intros H. by destruct (Hquiet evs Hs).
  - split; [done|]. intros H. by destruct (Hquiet evs Hs).
Qed.


(** The walk of a run that returns without a launch that found no scanner
    has gone through. *)
Lemma walk_completes w start_path :
  run_result w start_path = Val tt ->
  (forall c, Run c ∈ run_events w start_path -> ~ not_found w c) ->
  (walk_events w start_path (default NonDir (opendir w start_path))).1 = Val tt.
Proof.
  unfold run_result, run_events. intros Hres Hall.
  set (n := default NonDir (opendir w start_path)) in *.
  destruct (isdir w start_path) eqn:Hdir.
  - pose proof (walk_events_sound w n start_path) as Hs.
    apply sound_Ret in Hs.
    destruct (walk_events w start_path n) as [[[]| |e|h] evs]; simpl in *;
      [done| |done..].
    destruct (proj1 Hs eq_refl) as (c & Hc & Hnf).
    destruct (Hall c); [|done]. right. apply elem_of_app. by left.
  - unfold isdir in Hdir. subst n.
    destruct (opendir w start_path) as [[| |]|]; done.
Qed.

Lemma scan_events_shape w f :
  exists logs,
    (scan_events w f).2 = Run (clamscan f) :: logs
    /\ Forall (fun e => exists lvl msg, e = Log lvl msg) logs.
Proof.
  unfold scan_events. destruct (exec w _) as [code out err|e|h]; simpl.
  - eexists. split; [done|]. by apply classify_logs; eauto.
  - destruct (exn_cls e); simpl; eexists; (split; [done|]); each_event; eauto.
  - by exists [].
Qed.

Lemma chain_cons_Val evs parts :
  chain ((Val tt, evs) :: parts) = ((chain parts).1, evs ++ (chain parts).2).
Proof. reflexivity. Qed.

Lemma chain_Exc parts e :
  (chain parts).1 = Exc e ->
  exists r, r ∈ parts /\ r.1 = Exc e
            /\ forall x, x ∈ r.2 -> x ∈ (chain parts).2.
Proof.
  induction parts as [|[[[]| |e'|h] evs] parts IH]; simpl; intros He; try done.
  - destruct (IH He) as (r & Hr & Hre & Hsub).
    exists r. split; [by right|]. split; [done|].
    intros x Hx. apply elem_of_app. right. by apply Hsub.
  - exists (Exc e', evs). split; [by left|]. done.
Qed.

(** The walk raises nothing but [RecursionError], and only on going on from
    a directory that the loop has visited to a name that is too deep. *)
Lemma walk_events_raises w n :
  forall top e, (walk_events w top n).1 = Exc e ->
    e = recursion_error
    /\ exists root name,
         too_deep w (Py.join root name) = true
         /\ Consult root false ∈ (walk_events w top n).2.
Proof.
  induction n as [ls entries IH| |] using node_ind; intros top e; [|done..].
  destruct ls; [|done].
  cbn [walk_events chain fst snd].
  pose proof (files_events_result w top (nondirnames entries) e) as Hf.
  destruct (files_events w top (nondirnames entries)) as [[[]| |e0|h] fevs];
    cbn [fst snd chain]; [|done|by intros [= ->]|done].
  intros (r & Hr & Hre & Hsub)%chain_Exc.
  apply list_elem_of_fmap in Hr as ([name child] & -> & Hin).
  rewrite Forall_forall in IH. specialize (IH _ Hin).
  simpl in *. destruct (is_dir child) eqn:Hdir; [|done].
  destruct (too_deep w (Py.join top name)) eqn:Hdeep.
  - injection Hre as <-. split; [done|]. exists top, name. split; [done|].
    by left.
  - destruct child as [ls' entries'| |]; [|done..].
    destruct (IH _ _ Hre) as (-> & root & name' & Hd & Hc).
    split; [done|]. exists root, name'. split; [done|].
    right. apply elem_of_app. right. by apply Hsub.
Qed.

Lemma chain_Halt parts h :
  (chain parts).1 = Halt h ->
  exists r, r ∈ parts /\ r.1 = Halt h
            /\ forall x, x ∈ r.2 -> x ∈ (chain parts).2.
Proof.
  induction parts as [|[[[]| |e|h'] evs] parts IH]; simpl; intros He; try done.
  - destruct (IH He) as (r & Hr & Hre & Hsub).
    exists r. split; [by right|]. split; [done|].
    intros x Hx. apply elem_of_app. right. by apply Hsub.
  - exists (Halt h', evs). split; [by left|]. done.
Qed.

Lemma files_events_halts w root files h :
  (files_events w root files).1 = Halt h ->
  exists c, Run c ∈ (files_events w root files).2 /\ exec w c = Halts h.
Proof.
  unfold files_events. intros (r & Hr & Hre & Hsub)%chain_Halt.
  apply list_elem_of_fmap in Hr as (f & -> & _).
  unfold file_events in *. destruct (isfile w (Py.join root f)); [|done].
  exists (clamscan (Py.join root f)). cbn [fst snd] in *. split.
  - apply Hsub. right.
    destruct (scan_events_shape w (Py.join root f)) as (logs & -> & _).
    by left.
  - unfold scan_events in Hre.
    destruct (exec w _) as [code out err|e|h']; [done| |by injection Hre as ->].
    by destruct (exn_cls e).
Qed.

(** The walk halts only at a launch that does. *)
Lemma walk_events_halts w n :
  forall top h, (walk_events w top n).1 = Halt h ->
    exists c, Run c ∈ (walk_events w top n).2 /\ exec w c = Halts h.
Proof.
  induction n as [ls entries IH| |] using node_ind; intros top h; [|done..].
  destruct ls; [|done].
  cbn [walk_events]. rewrite chain_cons_Val. cbn [fst snd].
  pose proof (files_events_halts w top (nondirnames entries)) as Hf.
  destruct (files_events w top (nondirnames entries)) as [[[]| |e0|h0] fevs];
    cbn [fst snd chain] in *; [|done..|].
  - intros (r & Hr & Hre & Hsub)%chain_Halt.
    apply list_elem_of_fmap in Hr as ([name child] & -> & Hin).
    rewrite Forall_forall in IH. specialize (IH _ Hin).
    simpl in *. destruct (is_dir child) eqn:Hdir; [|done].
    destruct (too_deep w (Py.join top name)); [done|].
    destruct child as [ls' entries'| |]; [|done..].
    destruct (IH _ _ Hre) as (c & Hc & Hexec).
    exists c. split; [|done].
    right. apply elem_of_app. right. by apply Hsub.
  - intros [= ->]. destruct (Hf h eq_refl) as (c & Hc & Hexec).
    exists c. split; [by right|done].
Qed.

Lemma walk_events_no_limit w n :
  (forall d, too_deep w d = false) ->
  forall top e, (walk_events w top n).1 <> Exc e.
Proof.
  intros Hnone top e He.
  destruct (walk_events_raises w n top e He) as (_ & root & name & Hd & _).
  by rewrite Hnone in Hd.
Qed.

(** ** The order of the events *)

Lemma in_order_mono start t :
  forall seen seen',
    (forall x, x ∈ seen -> x ∈ seen') ->
    in_order start seen t -> in_order start seen' t.
Proof.
  induction t as [|[lvl msg|c|d found] t IH]; intros seen seen' Hsub; simpl;
    [done|..].
  - by apply IH.
  - intros [(root & name & -> & Hroot) Ht].
    split; [exists root, name; auto|by eapply IH].
  - intros (Hf & Hd & Ht). split; [done|]. split.
    + destruct Hd as [->|(root & name & -> & Hroot)]; [by left|].
      right. exists root, name. auto.
    + eapply IH; [|done].
      intros x [->|Hx]%elem_of_cons; [by left|right; auto].
Qed.

Lemma in_order_app start a b :
  forall seen,
    in_order start seen a ->
    (forall seen', (forall x, x ∈ seen -> x ∈ seen') -> in_order start seen' b) ->
    in_order start seen (a ++ b).
Proof.
  induction a as [|[lvl msg|c|d found] a IH]; intros seen Ha Hb; simpl in *.
  - by apply Hb.
  - by apply IH.
  - destruct Ha as [Hc Ha]. split; [done|by apply IH].
  - destruct Ha as (Hf & Hd & Ha). split; [done|]. split; [done|].
    apply IH; [done|]. intros seen' Hsub. apply Hb.
    intros x Hx. apply Hsub. by right.
Qed.

Lemma in_order_logs start seen t :
  Forall (fun e => exists lvl msg, e = Log lvl msg) t -> in_order start seen t.
Proof. induction 1 as [|e t (lvl & msg & ->) _ IH]; done. Qed.

Lemma in_order_split start pre :
  forall seen e post,
    in_order start seen (pre ++ e :: post) ->
    match e with
    | Log _ _ => True
    | Run c =>
        exists root name,
          c = clamscan (Py.join root name)
          /\ (root ∈ consulted pre \/ root ∈ seen)
    | Consult d found =>
        found = false
        /\ (d = start
            \/ exists root name,
                 d = Py.join root name
                 /\ (root ∈ consulted pre \/ root ∈ seen))
    end.
Proof.
  induction pre as [|[lvl msg|c|d found] pre IH]; intros seen e post; simpl.
  - destruct e as [lvl msg|c|d found]; [done|..].
    + intros [(root & name & -> & Hroot) _]. exists root, name. auto.
    + intros (Hf & Hd & _). split; [done|].
      destruct Hd as [->|(root & name & -> & Hroot)]; [by left|].
      right. exists root, name. auto.
  - apply IH.
  - intros [_ H]. by apply IH in H.
  - intros (_ & _ & H). apply IH in H.
    change (consulted (Consult d found :: pre)) with (d :: consulted pre).
    destruct e as [lvl msg|c|d' found']; [done|..].
    + destruct H as (root & name & -> & Hroot). exists root, name.
      split; [done|]. rewrite elem_of_cons in Hroot. rewrite elem_of_cons.
      tauto.
    + destruct H as [Hf Hd]. split; [done|].
      destruct Hd as [->|(root & name & -> & Hroot)]; [by left|].
      right. exists root, name.
      split; [done|]. rewrite elem_of_cons in Hroot. rewrite elem_of_cons.
      tauto.
Qed.

Lemma chain_in_order start top parts :
  Forall (fun r => forall seen, top ∈ seen -> in_order start seen r.2) parts ->
  forall seen, top ∈ seen -> in_order start seen (chain parts).2.
Proof.
  induction 1 as [|[[[]| |e|h] evs] parts Hr _ IH]; intros seen Htop; simpl;
    [done| |by apply Hr..].
  apply in_order_app; [by apply Hr|].
  intros seen' Hsub. apply IH. by apply Hsub.
Qed.

Lemma file_events_in_order w start root file_name seen :
  root ∈ seen -> in_order start seen (file_events w root file_name).2.
Proof.
  intros Hroot. unfold file_events. destruct (isfile w _); [|done].
  destruct (scan_events_shape w (Py.join root file_name)) as (logs & Heq & Hl).
  cbn [fst snd]. rewrite Heq. simpl.
  split; [by exists root, file_name|by apply in_order_logs].
Qed.

Lemma walk_events_in_order w start n :
  forall top seen,
    (top = start \/ exists root name, top = Py.join root name /\ root ∈ seen) ->
    in_order start seen (walk_events w top n).2.
Proof.
  induction n as [ls entries IH| |] using node_ind; intros top seen Htop;
    [|done..].
  destruct ls; [|done].
  cbn [walk_events]. rewrite chain_cons_Val. cbn [fst snd app].
  cbn [in_order]. split; [done|]. split; [done|].
  match goal with |- in_order _ _ (chain ?parts).2 =>
    apply (chain_in_order start top parts); [|by left]
  end.
  apply Forall_cons_2.
  - intros seen' Hin. unfold files_events.
    apply (chain_in_order start top); [|done].
    apply Forall_fmap, Forall_forall. intros f _ seen2 Hin2.
    by apply file_events_in_order.
  - apply Forall_fmap. eapply Forall_impl; [exact IH|].
    intros [name child] Hchild seen' Hin; simpl in *.
    destruct child; cbn [is_dir]; try destruct (too_deep w _); cbn [fst snd];
      try done.
    apply Hchild. right. by exists top, name.
Qed.

Lemma run_events_in_order w start_path :
  in_order start_path [] (run_events w start_path).
Proof.
  unfold run_events. destruct (isdir w start_path); [|done].
  cbn [in_order]. apply in_order_app.
  - apply walk_events_in_order. by left.
  - intros seen' _. by destruct (walk_events _ _ _).1.
Qed.

(** On a start directory that can be listed the first events of a run are
    the start record and the consultation for the start path. *)
Lemma run_events_first w start_path entries :
  opendir w start_path = Some (Dir Listed entries) ->
  exists evs,
    run_events w start_path
    = Log INFO ("Starting ClamAV audit of: " +:+ start_path)
      :: Consult start_path false :: evs.
Proof.
  intros Hopen. unfold run_events, isdir. rewrite Hopen.
  cbn [from_option id walk_events]. rewrite chain_cons_Val. cbn [fst snd app].
  by eexists.
Qed.

(** ** One launch *)

Lemma scan_launch w file_path s :
  runs (trace (scan w file_path s).2)
  = runs (trace s) ++ [["clamscan"; "--no-summary"; file_path]].
Proof.
  destruct s as [S d t].
  unfold scan, subprocess_run, strip_field, captured, bind, log, emit, raise,
    halts, ret; simpl.
  destruct (exec w _) as [code out err|e|h]; simpl.
  - destruct (code =? 0); [|destruct (code =? 1)]; simpl;
      rewrite <- ?app_assoc, runs_app; done.
  - by rewrite runs_app.
  - by rewrite runs_app.
Qed.

Lemma scan_file_launch w root file_name s :
  isfile w (Py.join root file_name) = true ->
  runs (trace (scan_file w root file_name s).2)
  = runs (trace s) ++ [["clamscan"; "--no-summary"; Py.join root file_name]].
Proof.
  intros Hfile. rewrite scan_file_exact. unfold file_events. rewrite Hfile.
  cbn [snd extend trace]. rewrite runs_app.
  change (runs (Log ?l ?m :: ?t)) with (runs t).
  by rewrite runs_scan_events.
Qed.

(** ** The files a run scans *)

Lemma scan_events_unlaunched w f g :
  launches w g = false ->
  Forall (fun e => ~ classifies f e) (scan_events w g).2.
Proof.
  unfold launches, scan_events.
  destruct (exec w (clamscan g)) as [code out err|e|h]; [done|..]; intros _.
  - destruct (exn_cls e); each_event; unclassified.
  - each_event. unclassified.
Qed.

Lemma blocks_no_record w fs evs f :
  blocks w fs evs -> launches w f = false ->
  Forall (fun e => ~ classifies f e) evs.
Proof.
  induction 1 as [|root fs evs _ IH|g fs evs _ IH]; intros Hl.
  - constructor.
  - constructor; [unclassified|by apply IH].
  - constructor; [unclassified|]. apply Forall_app. split; [|by apply IH].
    destruct (decide (f = g)) as [->|Hne];
      [by apply scan_events_unlaunched|by apply scan_events_other].
Qed.

Lemma run_events_scanned w start_path n :
  opendir w start_path = Some n ->
  well_formed n = true ->
  exists scanned,
    NoDup scanned
    /\ (forall f, f ∈ scanned -> f ∈ reachable_files w start_path n)
    /\ runs (run_events w start_path) = clamscan <$> scanned
    /\ (forall f, f ∈ scanned -> launches w f = true ->
          classified_once (run_events w start_path) f)
    /\ (forall f, launches w f = false ->
          Forall (fun e => ~ classifies f e) (run_events w start_path))
    /\ ((walk_events w start_path n).1 = Val tt ->
        scanned = reachable_files w start_path n).
Proof.
  intros Hopen Hwf. unfold run_events, isdir. rewrite Hopen. simpl.
  destruct n as [ls entries| |];
    [|exists []; repeat split; try done; try constructor;
       first [by intros f ?%elem_of_nil|unclassified|constructor]..].
  destruct (walk_events_runs w start_path (Dir ls entries) Hwf)
    as (scanned & Hb & Hnd & Hsub & Hall).
  set (r := walk_events w start_path (Dir ls entries)) in *.
  exists scanned. split; [done|]. split; [done|].
  split; [|split; [|split; [|done]]].
  - change (runs (Log ?l ?m :: ?t)) with (runs t).
    rewrite runs_app, (blocks_runs w scanned) by done.
    destruct r.1; by rewrite app_nil_r.
  - intros f Hf Hl.
    apply (classified_once_grow r.2 f [_]).
    + each_event. unclassified.
    + destruct r.1; each_event; unclassified.
    + by eapply blocks_classified_once.
  - intros f Hl. constructor; [unclassified|].
    apply Forall_app. split; [by eapply blocks_no_record|].
    destruct r.1; each_event; unclassified.
Qed.

(** ** Properties of the specification *)

Example strip_example :
  Py.strip " /r/b.exe: Test.Signature FOUND
" = "/r/b.exe: Test.Signature FOUND".
Proof. reflexivity. Qed.

Example join_examples :
  Py.join "/r" "a.txt" = "/r/a.txt" /\ Py.join "/" "etc" = "/etc"
  /\ Py.join "" "etc" = "etc" /\ Py.join "/r/" "a" = "/r/a".
Proof. repeat split; reflexivity. Qed.

Example str_int_examples :
  Py.str_int 0 = "0" /\ Py.str_int 2 = "2" /\ Py.str_int 40 = "40"
  /\ Py.str_int (-9) = "-9".
Proof. repeat split; reflexivity. Qed.

Example scenario_directories :
  consulted (trace (run scenario "/r").2) = ["/r"]
  /\ listed_dirs "/r" scenario_tree = ["/r"].
Proof. repeat split; reflexivity. Qed.

(** The log of the scenario of the specification, as it is printed: the
    warning about [locked] that the specification expects is not there. *)
Example scenario_log_stream :
  log_stream (trace (run scenario "/r").2)
  = [(INFO, "Starting ClamAV audit of: /r");
     (INFO, "CLEAN: /r/a.txt");
     (WARNING, "INFECTED: /r/b.exe");
     (WARNING, "  ClamAV Output: /r/b.exe: Test.Signature FOUND");
     (INFO, "ClamAV audit completed.")].
Proof. vm_compute. reflexivity. Qed.

(** In [broken_scanner] the entry [b.exe] is a named pipe: it is listed
    among the files and never passed to the scanner. *)
Example pipe_not_scanned :
  nondirnames [("a.txt", NonDir); ("b.exe", NonDir)] = ["a.txt"; "b.exe"]
  /\ runs (trace (run broken_scanner "/r").2) = [clamscan "/r/a.txt"].
Proof. split; [reflexivity|]. vm_compute. reflexivity. Qed.

(** What the keyword arguments of [subprocess.run] do: with
    [capture_output=True, text=True], the call of the source, the log line
    holds the stripped text; without [text] it would hold the [repr] of the
    stripped bytes, and without [capture_output] the stream is [None] and
    [.strip()] raises; with [check=True] a status other than 0 would be
    raised instead of returned. *)
Example capture_modes :
  logged_detail true true " x: Eicar FOUND " = Val "x: Eicar FOUND"
  /\ logged_detail true false " x: Eicar FOUND " = Val "b'x: Eicar FOUND'"
  /\ logged_detail false true " x: Eicar FOUND "
     = Exc (Exn OtherException "'NoneType' object has no attribute 'strip'")
  /\ (subprocess_run scenario (clamscan "/r/b.exe") true true false initial).1
     = Val (Completed 1 (Text " /r/b.exe: Test.Signature FOUND ") (Text ""))
  /\ (subprocess_run scenario (clamscan "/r/b.exe") true true true initial).1
     = Exc (Exn CalledProcessError "Command returned non-zero exit status").
Proof. repeat split; reflexivity. Qed.

(** On an interpreter whose stack is used up at [sub] the walk raises after
    the files of the root: the exception leaves the call, nothing below
    [sub] is scanned and the completion record is not logged. *)
Example limited_run :
  run limited "/"
  = (Exc recursion_error,
     State ∅ ["sub"; "locked"; "link"]
       [Log INFO "Starting ClamAV audit of: /"; Consult "/" false;
        Log DEBUG "Scanning: /a.txt"; Run (clamscan "/a.txt");
        Log INFO "CLEAN: /a.txt"]).
Proof. vm_compute. reflexivity. Qed.

(** C1: the scan of a file classifies the exit status of the scanner: status
    0 logs one INFO line "CLEAN: <path>"; status 1 logs the WARNING line
    "INFECTED: <path>" and a second WARNING line with the trimmed standard
    output; any other status logs an ERROR line with the status and a
    second ERROR line with the trimmed standard error. *)
Theorem C1_exit_status_classified w file_path s code out err :
  exec w (clamscan file_path) = Exited code out err ->
  let scanned := try_except (scan w file_path) (scan_handler file_path) s in
  (code = 0 ->
   scanned = (Val tt, extend s [Run (clamscan file_path);
                                Log INFO ("CLEAN: " +:+ file_path)]))
  /\ (code = 1 ->
      scanned = (Val tt, extend s [Run (clamscan file_path);
                   Log WARNING ("INFECTED: " +:+ file_path);
                   Log WARNING ("  ClamAV Output: " +:+ Py.strip out)]))
  /\ (code <> 0 -> code <> 1 ->
      scanned = (Val tt, extend s [Run (clamscan file_path);
                   Log ERROR ("ERROR scanning " +:+ file_path
                              +:+ " (Return Code: " +:+ Py.str_int code +:+ ")");
                   Log ERROR ("  ClamAV Stderr: " +:+ Py.strip err)])).
Proof.
  intros Hexec scanned. subst scanned.
  rewrite scan_exact. unfold scan_events. rewrite Hexec. unfold classify.
  repeat split.
  - by intros ->.
  - by intros ->.
  - intros H0 H1. apply Z.eqb_neq in H0, H1. by rewrite H0, H1.
Qed.

Lemma C1_exit_status_classified_witness :
  exec scenario (clamscan "/r/b.exe")
  = Exited 1 " /r/b.exe: Test.Signature FOUND " ""
  /\ try_except (scan scenario "/r/b.exe") (scan_handler "/r/b.exe") initial
     = (Val tt, extend initial [Run (clamscan "/r/b.exe");
          Log WARNING "INFECTED: /r/b.exe";
          Log WARNING "  ClamAV Output: /r/b.exe: Test.Signature FOUND"]).
Proof.
  split; [reflexivity|].
  apply (C1_exit_status_classified scenario "/r/b.exe" initial 1
           " /r/b.exe: Test.Signature FOUND " "").
  - reflexivity.
  - reflexivity.
Defined.

(** C2: on the scenario of the specification the directory [locked] cannot
    be listed.  [os.walk] passes over it in silence: the run logs no
    warning for it, the set stays empty and [dirs] keeps the name. *)
Theorem C2_listing_failure_unrecorded :
  run scenario "/r"
  = (Val tt,
     State ∅ ["locked"]
       [Log INFO "Starting ClamAV audit of: /r";
        Consult "/r" false;
        Log DEBUG "Scanning: /r/a.txt"; Run (clamscan "/r/a.txt");
        Log INFO "CLEAN: /r/a.txt";
        Log DEBUG "Scanning: /r/b.exe"; Run (clamscan "/r/b.exe");
        Log WARNING "INFECTED: /r/b.exe";
        Log WARNING "  ClamAV Output: /r/b.exe: Test.Signature FOUND";
        Log INFO "ClamAV audit completed."]).
Proof. vm_compute. reflexivity. Qed.

(** C3: for a start path that does not name an existing directory the run
    logs one ERROR line and nothing else, launches no scanner, never asks
    [os.walk] for a directory, and returns normally. *)
Theorem C3_invalid_root w start_path s :
  isdir w start_path = false ->
  audit_files_with_clamav w start_path s
  = (Val tt,
     extend s [Log ERROR ("Error: The provided path '" +:+ start_path
                          +:+ "' is not a valid directory.")]).
Proof.
  intros Hdir. unfold audit_files_with_clamav. by rewrite Hdir.
Qed.

Lemma C3_invalid_root_witness :
  isdir scenario "/r/a.txt" = false
  /\ run scenario "/r/a.txt"
     = (Val tt,
        extend initial
          [Log ERROR "Error: The provided path '/r/a.txt' is not a valid directory."]).
Proof.
  split; [reflexivity|].
  apply (C3_invalid_root scenario "/r/a.txt" initial). reflexivity.
Defined.



(** C5, as the code has it.  The files the walk reaches are the regular
    files of the root and of the directories below it that can be listed
    and are entered by name, not through a symbolic link.  No path is
    passed to the scanner more than once, and every path passed to it is
    one of these files; a file whose launch returns an exit status gets
    exactly one of the records Clean, Infected and ScanError, and a file
    whose launch returns none gets none of them; and when the call returns
    normally and no launch of the run fails for a missing scanner, the
    scanner is launched on each of these files. *)
Theorem C5_files_classified_once w start_path n :
  opendir w start_path = Some n ->
  well_formed n = true ->
  NoDup (runs (trace (run w start_path).2))
  /\ (forall c, Run c ∈ trace (run w start_path).2 ->
        exists f, c = clamscan f /\ f ∈ reachable_files w start_path n)
  /\ (forall f, Run (clamscan f) ∈ trace (run w start_path).2 ->
        launches w f = true ->
        classified_once (trace (run w start_path).2) f)
  /\ (forall f, launches w f = false ->
        Forall (fun e => ~ classifies f e) (trace (run w start_path).2))
  /\ ((run w start_path).1 = Val tt ->
      (forall c, Run c ∈ trace (run w start_path).2 -> ~ not_found w c) ->
      forall f, f ∈ reachable_files w start_path n ->
        Run (clamscan f) ∈ trace (run w start_path).2).
Proof.
  intros Hopen Hwf. destruct (run_exact w start_path) as [-> ->].
  destruct (run_events_scanned w start_path n Hopen Hwf)
    as (scanned & Hnd & Hsub & Hruns & Hcls & Hnone & Hall).
  assert (forall c, Run c ∈ run_events w start_path
            <-> exists f, c = clamscan f /\ f ∈ scanned) as Hrun.
  { intros c. rewrite <- elem_of_runs, Hruns. apply list_elem_of_fmap. }
  split; [|split; [|split; [|split]]].
  - rewrite Hruns. apply NoDup_fmap_2_strong; [|done]. by intros f g _ _ [=].
  - intros c (f & -> & Hf)%Hrun. exists f. auto.
  - intros f (g & [= <-] & Hf)%Hrun Hl. by apply Hcls.
  - done.
  - intros Hres Hquiet f Hf. apply Hrun. exists f. split; [done|].
    pose proof (walk_completes w start_path Hres Hquiet) as Hgo.
    rewrite Hopen in Hgo. by rewrite Hall.
Qed.

Lemma C5_files_classified_once_witness :
  opendir scenario "/r" = Some scenario_tree
  /\ well_formed scenario_tree = true
  /\ (run scenario "/r").1 = Val tt
  /\ reachable_files scenario "/r" scenario_tree = ["/r/a.txt"; "/r/b.exe"]
  /\ launches scenario "/r/b.exe" = true
  /\ NoDup (runs (trace (run scenario "/r").2))
  /\ Run (clamscan "/r/b.exe") ∈ trace (run scenario "/r").2
  /\ classified_once (trace (run scenario "/r").2) "/r/b.exe".
Proof.
  split; [reflexivity|]. split; [by vm_compute|]. split; [reflexivity|].
  split; [reflexivity|]. split; [reflexivity|].
  destruct (C5_files_classified_once scenario "/r" scenario_tree)
    as (Hnd & _ & Hcls & _ & Hall); [reflexivity|by vm_compute|].
  assert (Run (clamscan "/r/b.exe") ∈ trace (run scenario "/r").2) as Hrun.
  { apply Hall.
    - reflexivity.
    - intros c _ (e & He & _). unfold scenario in He. simpl in He.
      by case_bool_decide.
    - right. by left. }
  split; [exact Hnd|]. split; [exact Hrun|].
  apply Hcls; [exact Hrun|reflexivity].
Defined.

(** Without the scanner nothing is classified: [a.txt] is a regular file
    under the root, outside the directory that cannot be listed, and the
    run logs none of the three records for it. *)
Lemma C5_unclassified_without_scanner :
  opendir no_scanner "/r" = Some scenario_tree
  /\ well_formed scenario_tree = true
  /\ "/r/a.txt" ∈ reachable_files no_scanner "/r" scenario_tree
  /\ ~ classified_once (trace (run no_scanner "/r").2) "/r/a.txt".
Proof.
  split; [reflexivity|]. split; [by vm_compute|]. split.
  - vm_compute. by left.
  - intros (e & He & Hcls)%classified_once_elem.
    assert (trace (run no_scanner "/r").2
            = [Log INFO "Starting ClamAV audit of: /r"; Consult "/r" false;
               Log DEBUG "Scanning: /r/a.txt"; Run (clamscan "/r/a.txt");
               Log ERROR clamscan_not_found]) as Ht by (vm_compute; reflexivity).
    rewrite Ht in He. revert Hcls.
    repeat (apply elem_of_cons in He as [->|He]; [unclassified|]).
    by apply elem_of_nil in He.
Qed.

(** C6: every launch of a run is the scanner on a path for which
    [os.path.isfile] held at scan time; an entry that is not a regular file
    then (a pipe, a socket, a device, a link to none of these, an entry
    that has gone) is never passed to the scanner. *)
Theorem C6_only_regular_files_scanned w start_path :
  Forall (checked_scan w) (trace (run w start_path).2).
Proof.
  destruct (run_exact w start_path) as [_ ->].
  apply run_events_Forall; try done.
  intros root file_name. apply file_events_Forall; [done|].
  intros file_path Hfile. by exists file_path.
Qed.

(** C7: the set only grows while the loop runs (the one statement that
    changes it adds an element); each round of the loop consults it first,
    and a hit ends the round with [dirs] emptied, before any file of the
    directory is scanned and before the walk goes into a subdirectory; in a
    run the set has been consulted for a directory before the scanner is
    launched on one of its entries and before the loop comes to one of its
    subdirectories; and a call starts from the empty set: whatever set the
    state holds when the call begins, even one with the start path in it,
    the first consultation misses, and the result and the events of the
    call are those of a run from scratch. *)
Theorem C7_inaccessible_set w start_path :
  (forall root e s,
     inaccessible_dirs s ⊆ inaccessible_dirs (walk_handler root e s).2)
  /\ (forall root files s,
       inaccessible_dirs s ⊆ inaccessible_dirs (visit w root files s).2)
  /\ (forall n top s,
       inaccessible_dirs s ⊆ inaccessible_dirs (os_walk w top n (visit w) s).2)
  /\ (forall root files s,
       exists evs,
         trace (visit w root files s).2
         = trace s ++ Consult root (bool_decide (root ∈ inaccessible_dirs s)) :: evs
         /\ (root ∈ inaccessible_dirs s ->
             evs = [] /\ dirs (visit w root files s).2 = []))
  /\ (forall pre c post,
       trace (run w start_path).2 = pre ++ Run c :: post ->
       exists root name,
         c = clamscan (Py.join root name) /\ root ∈ consulted pre)
  /\ (forall pre d found post,
       trace (run w start_path).2 = pre ++ Consult d found :: post ->
       d = start_path
       \/ exists root name, d = Py.join root name /\ root ∈ consulted pre)
  /\ (forall s entries,
       opendir w start_path = Some (Dir Listed entries) ->
       exists evs,
         trace (audit_files_with_clamav w start_path s).2
         = trace s ++ Log INFO ("Starting ClamAV audit of: " +:+ start_path)
                      :: Consult start_path false :: evs)
  /\ (forall s,
       (audit_files_with_clamav w start_path s).1 = (run w start_path).1
       /\ trace (audit_files_with_clamav w start_path s).2
          = trace s ++ trace (run w start_path).2
       /\ (isdir w start_path = true ->
           inaccessible_dirs (audit_files_with_clamav w start_path s).2 = ∅)).
Proof.
  destruct (run_exact w start_path) as [Hres Htrace].
  pose proof (run_events_in_order w start_path) as Horder.
  split; [|split; [|split; [|split; [|split; [|split; [|split]]]]]].
  - apply walk_handler_grows.
  - intros root files s. by rewrite visit_set.
  - intros n top s.
    apply (os_walk_preserves w
             (fun s' => inaccessible_dirs s ⊆ inaccessible_dirs s'));
      [done| |done].
    intros root files s0 Hs0. by rewrite visit_set.
  - intros root files s.
    destruct (decide (root ∈ inaccessible_dirs s)) as [Hin|Hout].
    + exists []. rewrite visit_pruned by done. simpl.
      by rewrite bool_decide_eq_true_2.
    + eexists. rewrite visit_exact by done. simpl.
      by rewrite bool_decide_eq_false_2.
  - intros pre c post Heq. rewrite Htrace in Heq. rewrite Heq in Horder.
    destruct (in_order_split _ _ _ _ _ Horder)
      as (root & name & -> & [Hroot|Hroot]); [|by apply elem_of_nil in Hroot].
    by exists root, name.
  - intros pre d found post Heq. rewrite Htrace in Heq. rewrite Heq in Horder.
    destruct (in_order_split _ _ _ _ _ Horder)
      as (_ & [->|(root & name & -> & [Hroot|Hroot])]);
      [by left| |by apply elem_of_nil in Hroot].
    right. by exists root, name.
  - intros s entries Hopen.
    destruct (audit_exact w start_path s) as (s' & Hs' & Ht).
    destruct (run_events_first w start_path entries Hopen) as (evs & Hevs).
    exists evs. by rewrite Hs', <- Hevs.
  - intros s. destruct (audit_exact w start_path s) as (s' & Hs' & Ht).
    rewrite Hres, Htrace. split; [by rewrite Hs'|]. split; [by rewrite Hs'|].
    intros Hdir.
    destruct (permission_handler_unreachable w start_path s) as [_ Hset].
    by rewrite Hset, Hdir.
Qed.

Lemma C7_inaccessible_set_witness :
  trace (run deep "/").2
  = [Log INFO "Starting ClamAV audit of: /"; Consult "/" false;
     Log DEBUG "Scanning: /a.txt"; Run (clamscan "/a.txt");
     Log INFO "CLEAN: /a.txt"; Consult "/sub" false;
     Log DEBUG "Scanning: /sub/b.exe"]
    ++ Run (clamscan "/sub/b.exe")
       :: [Log WARNING "INFECTED: /sub/b.exe";
           Log WARNING "  ClamAV Output: /sub/b.exe: Eicar FOUND";
           Log DEBUG "Scanning: /sub/d.bin"; Run (clamscan "/sub/d.bin");
           Log ERROR "ERROR scanning /sub/d.bin (Return Code: 2)";
           Log ERROR "  ClamAV Stderr: cannot read";
           Log INFO "ClamAV audit completed."]
  /\ (exists root name,
        clamscan "/sub/b.exe" = clamscan (Py.join root name)
        /\ root ∈ ["/"; "/sub"])
  /\ exists evs,
       trace (audit_files_with_clamav deep "/" (State {["/"]} [] [])).2
       = Log INFO "Starting ClamAV audit of: /" :: Consult "/" false :: evs.
Proof.
  split; [vm_compute; reflexivity|].
  destruct (C7_inaccessible_set deep "/")
    as (_ & _ & _ & _ & Hrun & _ & Hfirst & _).
  split; [|eapply (Hfirst (State {["/"]} [] [])); reflexivity].
  apply (Hrun [Log INFO "Starting ClamAV audit of: /"; Consult "/" false;
               Log DEBUG "Scanning: /a.txt"; Run (clamscan "/a.txt");
               Log INFO "CLEAN: /a.txt"; Consult "/sub" false;
               Log DEBUG "Scanning: /sub/b.exe"]
           (clamscan "/sub/b.exe")
           [Log WARNING "INFECTED: /sub/b.exe";
            Log WARNING "  ClamAV Output: /sub/b.exe: Eicar FOUND";
            Log DEBUG "Scanning: /sub/d.bin"; Run (clamscan "/sub/d.bin");
            Log ERROR "ERROR scanning /sub/d.bin (Return Code: 2)";
            Log ERROR "  ClamAV Stderr: cannot read";
            Log INFO "ClamAV audit completed."]).
  vm_compute. reflexivity.
Defined.

(** C8: a failure of the launch of the scanner on one file, other than the
    missing executable, is caught and logged at ERROR level with the path
    of the file and the text of the failure, and the loop goes on with the
    files that follow. *)
Theorem C8_unexpected_failure_contained w root file_name files s e :
  isfile w (Py.join root file_name) = true ->
  exec w (clamscan (Py.join root file_name)) = SpawnFails e ->
  exn_cls e <> FileNotFoundError ->
  scan_files w root (file_name :: files) s
  = scan_files w root files
      (extend s [Log DEBUG ("Scanning: " +:+ Py.join root file_name);
                 Run (clamscan (Py.join root file_name));
                 Log ERROR ("An unexpected error occurred while scanning "
                            +:+ Py.join root file_name +:+ ": " +:+ exn_str e)]).
Proof.
  intros Hfile Hexec Hcls.
  unfold scan_files. rewrite for_each_cons. unfold bind at 1.
  rewrite scan_file_exact. unfold file_events, scan_events.
  rewrite Hfile, Hexec.
  by destruct (exn_cls e).
Qed.

Lemma C8_unexpected_failure_contained_witness :
  isfile broken_scanner (Py.join "/r" "a.txt") = true
  /\ exec broken_scanner (clamscan (Py.join "/r" "a.txt"))
     = SpawnFails (Exn PermissionError "[Errno 13] Permission denied: 'clamscan'")
  /\ scan_files broken_scanner "/r" ["a.txt"; "b.exe"; "c"] initial
     = (Val tt,
        extend initial
          [Log DEBUG "Scanning: /r/a.txt"; Run (clamscan "/r/a.txt");
           Log ERROR "An unexpected error occurred while scanning /r/a.txt: [Errno 13] Permission denied: 'clamscan'";
           Log DEBUG "Scanning: /r/c"; Run (clamscan "/r/c");
           Log ERROR "ERROR scanning /r/c (Return Code: 2)";
           Log ERROR "  ClamAV Stderr: LibClamAV Error: cannot open database"]).
Proof.
  split; [reflexivity|]. split; [reflexivity|].
  rewrite (C8_unexpected_failure_contained broken_scanner "/r" "a.txt"
             ["b.exe"; "c"] initial
             (Exn PermissionError "[Errno 13] Permission denied: 'clamscan'")).
  - reflexivity.
  - reflexivity.
  - reflexivity.
  - discriminate.
Defined.

(** C9: every launch of a run has the argument list
    <<clamscan --no-summary <file-path>>>, and the round of the loop for a
    regular file makes exactly one such launch, on the path of the file;
    standard output and standard error are captured as text: after a status
    the scan logs, besides the line for the status, the stripped text the
    scanner wrote (standard output for status 1, standard error for any
    status other than 0 and 1); and whatever the status, the scan raises
    nothing and ends normally. *)
Theorem C9_scanner_invocation w start_path root file_name s code out err :
  isfile w (Py.join root file_name) = true ->
  exec w ["clamscan"; "--no-summary"; Py.join root file_name]
  = Exited code out err ->
  Forall clamscan_call (trace (run w start_path).2)
  /\ runs (trace (scan_file w root file_name s).2)
     = runs (trace s) ++ [["clamscan"; "--no-summary"; Py.join root file_name]]
  /\ scan w (Py.join root file_name) s
     = (Val tt,
        extend s
          (Run ["clamscan"; "--no-summary"; Py.join root file_name]
           :: if code =? 0 then
                [Log INFO ("CLEAN: " +:+ Py.join root file_name)]
              else if code =? 1 then
                [Log WARNING ("INFECTED: " +:+ Py.join root file_name);
                 Log WARNING ("  ClamAV Output: " +:+ Py.strip out)]
              else
                [Log ERROR ("ERROR scanning " +:+ Py.join root file_name
                            +:+ " (Return Code: " +:+ Py.str_int code +:+ ")");
                 Log ERROR ("  ClamAV Stderr: " +:+ Py.strip err)])).
Proof.
  intros Hfile Hexec. split; [|split].
  - destruct (run_exact w start_path) as [_ ->].
    apply run_events_Forall; try done.
    intros root' file_name'. apply file_events_Forall; [done|].
    intros p _. by exists p.
  - by apply scan_file_launch.
  - destruct s as [S d t].
    unfold scan, subprocess_run, strip_field, captured, bind, log, emit, ret,
      extend; simpl.
    rewrite Hexec. simpl.
    destruct (code =? 0); [|destruct (code =? 1)]; simpl;
      rewrite <- ?app_assoc; done.
Qed.

Lemma C9_scanner_invocation_witness :
  isfile broken_scanner (Py.join "/r" "c") = true
  /\ exec broken_scanner ["clamscan"; "--no-summary"; Py.join "/r" "c"]
     = Exited 2 "" " LibClamAV Error: cannot open database "
  /\ Forall clamscan_call (trace (run broken_scanner "/r").2)
  /\ runs (trace (scan_file broken_scanner "/r" "c" initial).2)
     = [["clamscan"; "--no-summary"; "/r/c"]]
  /\ scan broken_scanner "/r/c" initial
     = (Val tt,
        extend initial
          [Run ["clamscan"; "--no-summary"; "/r/c"];
           Log ERROR "ERROR scanning /r/c (Return Code: 2)";
           Log ERROR "  ClamAV Stderr: LibClamAV Error: cannot open database"]).
Proof.
  split; [reflexivity|]. split; [reflexivity|].
  apply (C9_scanner_invocation broken_scanner "/r" "/r" "c" initial 2 ""
           " LibClamAV Error: cannot open database ").
  - reflexivity.
  - reflexivity.
Defined.

(** C10: in every run each evaluation of [root in inaccessible_dirs] is
    false, so the branch of lines 29-30 is never taken.  The one statement
    that adds a directory to the set clears [dirs] in the same handler, and
    the walk yields a directory at most once. *)
Theorem C10_prune_branch_never_taken w start_path :
  Forall missed (trace (run w start_path).2)
  /\ (forall root msg s,
        walk_handler root (Exn PermissionError msg) s
        = (Val tt,
           State ({[root]} ∪ inaccessible_dirs s) []
             (trace s ++ [Log WARNING ("Permission denied to access directory: "
                                       +:+ root +:+ ". Skipping this directory.")])))
  /\ (forall n,
        opendir w start_path = Some n -> well_formed n = true ->
        NoDup (consulted (trace (run w start_path).2))).
Proof.
  destruct (run_exact w start_path) as [_ ->].
  split; [|split; [done|]].
  - apply run_events_Forall; try done.
    intros root file_name. by apply file_events_Forall.
  - intros n Hopen Hwf. unfold run_events, isdir. rewrite Hopen. simpl.
    destruct n as [ls entries| |]; [|constructor..].
    change (consulted (Log ?l ?m :: ?t)) with (consulted t).
    unfold consulted. rewrite omap_app.
    apply (sublist_NoDup _ (listed_dirs start_path (Dir ls entries)));
      [by apply NoDup_listed_dirs|].
    rewrite <- (app_nil_r (listed_dirs _ _)).
    apply sublist_app; [apply consulted_walk_events|].
    by destruct (walk_events _ _ _).1.
Qed.

(** ** Further properties of the run *)

Example deep_run :
  (main deep initial).1 = Val tt
  /\ log_stream (trace (main deep initial).2)
     = [(INFO, "Starting ClamAV audit of: /");
        (INFO, "CLEAN: /a.txt");
        (WARNING, "INFECTED: /sub/b.exe");
        (WARNING, "  ClamAV Output: /sub/b.exe: Eicar FOUND");
        (ERROR, "ERROR scanning /sub/d.bin (Return Code: 2)");
        (ERROR, "  ClamAV Stderr: cannot read");
        (INFO, "ClamAV audit completed.")]
  /\ consulted (trace (main deep initial).2) = ["/"; "/sub"]
  /\ hidden_paths "/" deep_tree = ["/locked/c.txt"].
Proof. repeat split; vm_compute; reflexivity. Qed.

(** A scanner that never exits halts the run at its launch. *)
Example stuck_run :
  (run stuck "/").1 = Halt NeverReturns
  /\ trace (run stuck "/").2
     = [Log INFO "Starting ClamAV audit of: /"; Consult "/" false;
        Log DEBUG "Scanning: /a.txt"; Run (clamscan "/a.txt");
        Log INFO "CLEAN: /a.txt"; Consult "/sub" false;
        Log DEBUG "Scanning: /sub/b.exe"; Run (clamscan "/sub/b.exe")].
Proof. split; vm_compute; reflexivity. Qed.


Lemma run_events_each w (Q : event -> Prop) start_path :
  (forall top, Q (Consult top false)) ->
  (forall root file_name, Forall Q (file_events w root file_name).2) ->
  Q (Log INFO ("Starting ClamAV audit of: " +:+ start_path)) ->
  Q (Log INFO "ClamAV audit completed.") ->
  Q (Log ERROR ("Error: The provided path '" +:+ start_path
                +:+ "' is not a valid directory.")) ->
  Forall Q (run_events w start_path).
Proof.
  intros Hconsult Hfile Hstart Hdone Hinvalid. unfold run_events.
  destruct (isdir w start_path); [|by repeat constructor].
  constructor; [done|].
  apply Forall_app. split; [by apply walk_events_Forall|].
  destruct (walk_events _ _ _).1; by repeat constructor.
Qed.


(** X1: a call of [audit_files_with_clamav] ends in one of three ways.  It
    returns normally; or the [RecursionError] of [os.walk] leaves it, which
    happens only on going on from a directory that the loop has visited to
    a name that is too deep for the stack of the interpreter; or a launch
    of the scanner halts it: the interpreter is interrupted while it waits,
    or the scanner never exits.  Every exception of class [Exception] that
    a launch raises is caught.  So when the walk never runs out of stack and
    every launch ends with a status or such an exception, the call returns
    normally, and so does the script, which calls it on the root of the
    file system. *)
Theorem X1_call_outcomes w start_path s :
  ((audit_files_with_clamav w start_path s).1 = Val tt
   \/ (audit_files_with_clamav w start_path s).1 = Exc recursion_error
   \/ exists h, (audit_files_with_clamav w start_path s).1 = Halt h)
  /\ (forall e,
        (audit_files_with_clamav w start_path s).1 = Exc e ->
        exists root name,
          too_deep w (Py.join root name) = true
          /\ Consult root false ∈ trace (run w start_path).2)
  /\ (forall h,
        (audit_files_with_clamav w start_path s).1 = Halt h ->
        exists c, Run c ∈ trace (run w start_path).2 /\ exec w c = Halts h)
  /\ (forall file_path s0 e,
        (try_except (scan w file_path) (scan_handler file_path) s0).1 <> Exc e)
  /\ ((forall d, too_deep w d = false) ->
      (forall c h, exec w c <> Halts h) ->
      (audit_files_with_clamav w start_path s).1 = Val tt
      /\ (main w s).1 = Val tt).
Proof.
  assert (forall p s1,
            (forall e, (audit_files_with_clamav w p s1).1 = Exc e ->
               e = recursion_error
               /\ exists root name,
                    too_deep w (Py.join root name) = true
                    /\ Consult root false ∈ run_events w p)
            /\ (forall h, (audit_files_with_clamav w p s1).1 = Halt h ->
                  exists c, Run c ∈ run_events w p /\ exec w c = Halts h)
            /\ (audit_files_with_clamav w p s1).1 <> Ret) as Hends.
  { intros p s1. destruct (audit_exact w p s1) as (s2 & -> & _).
    unfold run_result, run_events. cbn [fst].
    destruct (isdir w p); [|done].
    set (n := default NonDir (opendir w p)).
    pose proof (walk_events_raises w n p) as Hexc.
    pose proof (walk_events_halts w n p) as Hhalt.
    destruct (walk_events w p n) as [[[]| |e|h] evs]; cbn [fst snd] in *;
      (split; [|split]); try done.
    - intros e' [= <-]. destruct (Hexc e eq_refl) as (-> & root & name & Hd & Hc).
      split; [done|]. exists root, name. split; [done|].
      right. apply elem_of_app. by left.
    - intros h' [= <-]. destruct (Hhalt h eq_refl) as (c & Hc & Hexec).
      exists c. split; [|done]. right. apply elem_of_app. by left. }
  assert (forall p s1, (forall d, too_deep w d = false) ->
            (forall c h, exec w c <> Halts h) ->
            (audit_files_with_clamav w p s1).1 = Val tt) as Hnone.
  { intros p s1 Hd Hl. destruct (Hends p s1) as (Hexc & Hhalt & Hret).
    destruct (audit_files_with_clamav w p s1).1 as [[]| |e|h]; [done..| |].
    - destruct (Hexc e eq_refl) as (_ & root & name & Hdeep & _).
      by rewrite Hd in Hdeep.
    - destruct (Hhalt h eq_refl) as (c & _ & Hexec). by destruct (Hl c h). }
  destruct (run_exact w start_path) as [_ ->].
  destruct (Hends start_path s) as (Hexc & Hhalt & Hret).
  split; [|split; [|split; [|split]]].
  - destruct (audit_files_with_clamav w start_path s).1 as [[]| |e|h].
    + by left.
    + done.
    + right. left. by destruct (Hexc e eq_refl) as [-> _].
    + right. right. by exists h.
  - intros e He. by destruct (Hexc e He) as [_ H].
  - done.
  - intros file_path s0 e. rewrite scan_exact. simpl.
    apply scan_events_result.
  - intros Hd Hl. split; by apply Hnone.
Qed.

Lemma X1_call_outcomes_witness :
  (forall d, too_deep deep d = false)
  /\ (forall c h, exec deep c <> Halts h)
  /\ (audit_files_with_clamav deep "/" initial).1 = Val tt
  /\ (main deep initial).1 = Val tt.
Proof.
  assert (forall d, too_deep deep d = false) as Hd by reflexivity.
  assert (forall c h, exec deep c <> Halts h) as Hl.
  { intros c h. unfold deep. simpl. repeat case_bool_decide; discriminate. }
  split; [exact Hd|]. split; [exact Hl|].
  destruct (X1_call_outcomes deep "/" initial) as (_ & _ & _ & _ & Hret).
  apply Hret; [exact Hd|exact Hl].
Defined.

Lemma walk_events_not_completed w n top :
  Forall (fun e => e <> Log INFO "ClamAV audit completed.") (walk_events w top n).2.
Proof.
  apply walk_events_Forall; [done|].
  intros root file_name. unfold file_events.
  destruct (isfile w _); simpl; [|done]. constructor; [done|].
  unfold scan_events. destruct (exec w _) as [code out err|e|h]; simpl.
  - constructor; [done|]. unfold classify.
    destruct (code =? 0); [|destruct (code =? 1)]; by each_event.
  - by destruct (exn_cls e); simpl; each_event.
  - by each_event.
Qed.

Lemma walk_events_not_start w n top start_path :
  Forall (fun e => e <> Log INFO ("Starting ClamAV audit of: " +:+ start_path))
    (walk_events w top n).2.
Proof.
  apply walk_events_Forall; [done|].
  intros root file_name. unfold file_events.
  destruct (isfile w _); simpl; [|done]. constructor; [done|].
  unfold scan_events. destruct (exec w _) as [code out err|e|h]; simpl.
  - constructor; [done|]. unfold classify.
    destruct (code =? 0); [|destruct (code =? 1)]; by each_event.
  - by destruct (exn_cls e); simpl; each_event.
  - by each_event.
Qed.

(** X2: a run on a directory logs the start record first and once.  When
    the call returns normally and no launch fails for a missing scanner,
    the completion record is the last event and occurs once; when a launch
    fails for a missing scanner, or the call does not return normally, the
    completion record is never logged. *)
Theorem X2_start_and_completion_records w start_path :
  isdir w start_path = true ->
  exists evs,
    trace (run w start_path).2
    = Log INFO ("Starting ClamAV audit of: " +:+ start_path) :: evs
    /\ (Log INFO ("Starting ClamAV audit of: " +:+ start_path) ∉ evs)
    /\ ((run w start_path).1 = Val tt ->
        (forall c, Run c ∈ evs -> ~ not_found w c) ->
        exists evs', evs = evs' ++ [Log INFO "ClamAV audit completed."]
                     /\ (Log INFO "ClamAV audit completed." ∉ evs'))
    /\ ((exists c, Run c ∈ evs /\ not_found w c) ->
        Log INFO "ClamAV audit completed." ∉ evs)
    /\ ((run w start_path).1 <> Val tt ->
        Log INFO "ClamAV audit completed." ∉ evs).
Proof.
  intros Hdir. destruct (run_exact w start_path) as [-> ->].
  unfold run_events, run_result. rewrite Hdir.
  set (n := default NonDir (opendir w start_path)).
  pose proof (walk_events_sound w n start_path) as Hsound.
  pose proof (walk_events_not_completed w n start_path) as Hnc.
  pose proof (walk_events_not_start w n start_path start_path) as Hns.
  apply sound_Ret in Hsound.
  destruct (walk_events w start_path n) as [go_on evs]; simpl in *.
  rewrite Forall_forall in Hnc, Hns.
  eexists. split; [done|]. split; [|split; [|split]].
  - intros [Hin|Hin]%elem_of_app; [by apply (Hns _ Hin)|].
    destruct go_on; [|by apply elem_of_nil in Hin..].
    by apply list_elem_of_singleton in Hin.
  - intros Hres Hall. destruct go_on as [[]| |e|h]; [| |done..].
    + exists evs. split; [done|]. intros Hin. by apply (Hnc _ Hin).
    + destruct (proj1 Hsound eq_refl) as (c & Hc & Hnf).
      destruct (Hall c); [|done]. apply elem_of_app. by left.
  - intros (c & Hc & Hnf) Hin.
    destruct go_on as [[]| |e|h];
      [|rewrite app_nil_r in Hin; by apply (Hnc _ Hin)..].
    assert (Val () = Ret :> res unit); [|done].
    apply Hsound. exists c. split; [|done].
    apply elem_of_app in Hc as [Hc|Hc]; [done|].
    by apply list_elem_of_singleton in Hc.
  - intros Hres Hin.
    destruct go_on as [[]| |e|h];
      [done..|rewrite app_nil_r in Hin; by apply (Hnc _ Hin)
             |rewrite app_nil_r in Hin; by apply (Hnc _ Hin)].
Qed.

Lemma X2_start_and_completion_records_witness :
  isdir deep "/" = true
  /\ (run deep "/").1 = Val tt
  /\ exists evs,
       trace (run deep "/").2 = Log INFO "Starting ClamAV audit of: /" :: evs
       /\ exists evs', evs = evs' ++ [Log INFO "ClamAV audit completed."].
Proof.
  split; [reflexivity|]. split; [reflexivity|].
  destruct (X2_start_and_completion_records deep "/" eq_refl)
    as (evs & Ht & _ & Hdone & _).
  exists evs. split; [exact Ht|].
  destruct Hdone as (evs' & Hevs & _); [reflexivity| |by exists evs'].
  intros c _ (e & He & _). unfold deep in He. simpl in He.
  repeat case_bool_decide; discriminate.
Defined.

(** X3: the loop over the files never lets an exception out, so the
    handlers of lines 84-89 never run: no run logs the traversal error of
    line 89 or the permission warning of line 85. *)
Theorem X3_outer_handlers_never_run w start_path :
  (forall root files s e, (scan_files w root files s).1 <> Exc e)
  /\ Forall no_traversal_error (trace (run w start_path).2)
  /\ Forall no_permission_warning (trace (run w start_path).2).
Proof.
  split; [|split].
  - intros root files s e. rewrite scan_files_exact. simpl.
    apply files_events_result.
  - destruct (run_exact w start_path) as [_ ->].
    apply run_events_each; try done.
    intros root file_name. unfold file_events.
    destruct (isfile w _); simpl; [|done]. constructor; [done|].
    unfold scan_events. destruct (exec w _) as [code out err|e|h]; simpl.
    + constructor; [done|]. unfold classify.
      destruct (code =? 0); [|destruct (code =? 1)]; each_event;
        try done; intros root' detail; discriminate.
    + destruct (exn_cls e); simpl; each_event; try done;
        intros root' detail; discriminate.
    + by each_event.
  - destruct (run_exact w start_path) as [_ ->].
    apply (permission_handler_unreachable w start_path initial).
Qed.

Lemma prefix_fmap {A B} (f : A -> B) l k :
  l `prefix_of` k -> f <$> l `prefix_of` f <$> k.
Proof. intros [k' ->]. rewrite fmap_app. by eexists. Qed.

(** X4: the scanner is launched on the reachable regular files in the order
    of the walk (the files of a directory, then its subdirectories in
    listing order, each in the same way): the launches of a run are a first
    part of that list, and all of it when the call returns normally and no
    launch fails for a missing scanner. *)
Theorem X4_launches_in_walk_order w start_path n :
  opendir w start_path = Some n ->
  runs (trace (run w start_path).2)
    `prefix_of` (clamscan <$> reachable_files w start_path n)
  /\ ((run w start_path).1 = Val tt ->
      (forall c, Run c ∈ trace (run w start_path).2 -> ~ not_found w c) ->
      runs (trace (run w start_path).2)
      = clamscan <$> reachable_files w start_path n).
Proof.
  intros Hopen. destruct (run_exact w start_path) as [-> ->].
  pose proof (walk_completes w start_path) as Hgo. rewrite Hopen in Hgo.
  unfold run_events, isdir in *. rewrite Hopen in *. simpl in *.
  destruct n as [ls entries| |]; [|done..].
  destruct (walk_events_covers w (Dir ls entries) start_path)
    as (scanned & Hb & Hs).
  change (runs (Log ?l ?m :: ?t)) with (runs t) in *.
  rewrite runs_app, (blocks_runs w scanned) by done.
  destruct (walk_events w start_path (Dir ls entries)) as [go_on evs];
    simpl in *.
  assert (runs (match go_on with
                | Val _ => [Log INFO "ClamAV audit completed."]
                | _ => []
                end) = []) as -> by by destruct go_on.
  rewrite app_nil_r. split.
  - destruct go_on as [[]| |e|h]; [by subst| |by apply prefix_fmap..].
    apply prefix_fmap. by destruct Hs.
  - intros Hres Hall. rewrite (Hgo Hres Hall) in Hs. by subst.
Qed.

Lemma X4_launches_in_walk_order_witness :
  opendir deep "/" = Some deep_tree
  /\ (run deep "/").1 = Val tt
  /\ runs (trace (run deep "/").2)
     = clamscan <$> ["/a.txt"; "/sub/b.exe"; "/sub/d.bin"].
Proof.
  split; [reflexivity|]. split; [reflexivity|].
  destruct (X4_launches_in_walk_order deep "/" deep_tree eq_refl) as [_ Hall].
  apply Hall; [reflexivity|]. intros c _ (e & He & _).
  unfold deep in He. simpl in He.
  repeat case_bool_decide; discriminate.
Defined.

Lemma tracks_chain_cons {B} (proj : event -> option B) full1 r full2 parts :
  tracks proj full1 r -> tracks proj full2 (chain parts) ->
  tracks proj (full1 ++ full2) (chain (r :: parts)).
Proof.
  unfold tracks. destruct r as [[[]| |e|h] evs]; simpl; intros H1 H2.
  - rewrite omap_app, H1.
    destruct (chain parts).1; [by rewrite H2|by apply prefix_app..].
  - by apply prefix_app_r.
  - by apply prefix_app_r.
  - by apply prefix_app_r.
Qed.

Lemma tracks_chain_map {A B} (proj : event -> option B)
    (g : A -> list B) (f : A -> res unit * list event) l :
  (forall x, x ∈ l -> tracks proj (g x) (f x)) ->
  tracks proj (concat (map g l)) (chain (map f l)).
Proof.
  induction l as [|x l IH]; intros Hl; [done|].
  cbn [map concat]. apply tracks_chain_cons; [apply Hl; by left|].
  apply IH. intros y Hy. apply Hl. by right.
Qed.

Lemma walk_events_tracks_dirs w n :
  forall top, tracks consult_root (listed_dirs top n) (walk_events w top n).
Proof.
  induction n as [ls entries IH| |] using node_ind; intros top; [|done..].
  destruct ls; [|done].
  cbn [walk_events listed_dirs].
  apply (tracks_chain_cons consult_root [top] (Val tt, [Consult top false]));
    [done|].
  match goal with |- tracks _ _ (chain (?r :: map ?f _)) =>
    apply (tracks_chain_cons consult_root [] r _ (map f entries))
  end.
  - unfold tracks. pose proof (consulted_files_events w top (nondirnames entries)) as H.
    unfold consulted in H. unfold consult_root. rewrite H.
    by destruct (files_events _ _ _).1.
  - apply tracks_chain_map. intros [name child] He.
    rewrite Forall_forall in IH. specialize (IH _ He). simpl in *.
    destruct child; cbn [is_dir]; try destruct (too_deep w _);
      first [apply IH|done|apply prefix_nil].
Qed.

(** X5: the loop body runs for the directories that can be listed,
    top-down in listing order, and for no other path (not for a directory
    whose listing fails, not below one, not through a symbolic link): the
    directories visited are a first part of that list, and all of it when
    the call returns normally and no launch fails for a missing scanner. *)
Theorem X5_directories_visited w start_path n :
  opendir w start_path = Some n ->
  consulted (trace (run w start_path).2) `prefix_of` listed_dirs start_path n
  /\ ((run w start_path).1 = Val tt ->
      (forall c, Run c ∈ trace (run w start_path).2 -> ~ not_found w c) ->
      consulted (trace (run w start_path).2) = listed_dirs start_path n).
Proof.
  intros Hopen. destruct (run_exact w start_path) as [-> ->].
  pose proof (walk_completes w start_path) as Hgo. rewrite Hopen in Hgo.
  unfold run_events, isdir in *. rewrite Hopen in *. simpl in *.
  destruct n as [ls entries| |]; [|done..].
  pose proof (walk_events_tracks_dirs w (Dir ls entries) start_path) as Ht.
  unfold tracks in Ht.
  change (consulted (Log ?l ?m :: ?t)) with (consulted t).
  unfold consulted. rewrite omap_app.
  destruct (walk_events w start_path (Dir ls entries)) as [go_on evs];
    simpl in *.
  change (omap _ evs) with (omap consult_root evs).
  assert (omap (fun e => match e with Consult root _ => Some root | _ => None end)
            (match go_on with
             | Val _ => [Log INFO "ClamAV audit completed."]
             | _ => []
             end) = [])
    as -> by by destruct go_on.
  rewrite app_nil_r. split.
  - destruct go_on; [by rewrite Ht|done..].
  - intros Hres Hall. by rewrite (Hgo Hres Hall) in Ht.
Qed.

Lemma X5_directories_visited_witness :
  opendir deep "/" = Some deep_tree
  /\ (run deep "/").1 = Val tt
  /\ consulted (trace (run deep "/").2) = ["/"; "/sub"].
Proof.
  split; [reflexivity|]. split; [reflexivity|].
  destruct (X5_directories_visited deep "/" deep_tree eq_refl) as [_ Hall].
  apply Hall; [reflexivity|]. intros c _ (e & He & _).
  unfold deep in He. simpl in He.
  repeat case_bool_decide; discriminate.
Defined.



(** *** What is scanned lies under listed directories *)

Lemma all_paths_base n :
  forall top p, well_formed n = true -> p ∈ all_paths top n ->
    exists r, p = base top +:+ r.
Proof.
  induction n as [ls entries IH| |] using node_ind; intros top p Hwf Hp;
    [|by apply elem_of_nil in Hp..].
  destruct (well_formed_Dir _ _ Hwf) as [_ Hall].
  rewrite Forall_forall in Hall, IH.
  cbn [all_paths] in Hp. apply elem_of_children in Hp as (e & He & Hp).
  destruct (Hall e He) as [Hname Hchild].
  apply elem_of_cons in Hp as [->|Hp].
  - exists e.1. by apply join_base.
  - destruct (IH _ He _ _ Hchild Hp) as [r ->].
    rewrite base_join by done. exists (e.1 +:+ "/" +:+ r).
    by rewrite !append_assoc.
Qed.

Lemma hidden_base n :
  forall top p, well_formed n = true -> p ∈ hidden_paths top n ->
    exists r, p = base top +:+ r.
Proof.
  induction n as [ls entries IH| |] using node_ind; intros top p Hwf Hp;
    [|by apply elem_of_nil in Hp..].
  destruct ls as [|x].
  - destruct (well_formed_Dir _ _ Hwf) as [_ Hall].
    rewrite Forall_forall in Hall, IH.
    cbn [hidden_paths] in Hp. apply elem_of_children in Hp as (e & He & Hp).
    destruct (Hall e He) as [Hname Hchild].
    destruct (IH _ He _ _ Hchild Hp) as [r ->].
    rewrite base_join by done. exists (e.1 +:+ "/" +:+ r).
    by rewrite !append_assoc.
  - by apply (all_paths_base (Dir (ScandirFails x) entries)).
Qed.

Lemma entry_unique (entries : list (string * node)) e e' :
  NoDup entries.*1 -> e ∈ entries -> e' ∈ entries -> e.1 = e'.1 -> e = e'.
Proof.
  induction entries as [|x entries IH]; intros Hnd He He' Heq.
  - by apply elem_of_nil in He.
  - rewrite fmap_cons in Hnd. apply NoDup_cons in Hnd as [Hx Hnd].
    apply elem_of_cons in He as [->|He], He' as [->|He']; [done|..].
    + exfalso. apply Hx. rewrite Heq. by apply list_elem_of_fmap_2.
    + exfalso. apply Hx. rewrite <- Heq. by apply list_elem_of_fmap_2.
    + by apply IH.
Qed.

Lemma reachable_not_hidden w n :
  forall top p, well_formed n = true ->
    p ∈ reachable_files w top n -> p ∉ hidden_paths top n.
Proof.
  induction n as [ls entries IH| |] using node_ind; intros top p Hwf Hp Hh;
    [|by apply elem_of_nil in Hp..].
  destruct ls; [|by apply elem_of_nil in Hp].
  destruct (well_formed_Dir _ _ Hwf) as [Hnames Hall].
  rewrite Forall_forall in Hall, IH.
  cbn [hidden_paths] in Hh. apply elem_of_children in Hh as (e & He & Hh).
  destruct (Hall e He) as [Hname Hchild].
  destruct (hidden_base _ _ _ Hchild Hh) as [r Hr].
  rewrite base_join, !append_assoc in Hr by done.
  cbn [reachable_files] in Hp. apply elem_of_app in Hp as [Hp|Hp].
  - apply elem_of_regular_files in Hp as (f & Hf & -> & _).
    apply elem_of_nondirnames in Hf as (e0 & He0 & <-).
    rewrite join_base in Hr by by apply Hall.
    apply String.app_inj in Hr. revert Hr. apply name_not_below.
    by apply name_ok_spec, Hall.
  - apply elem_of_children in Hp as (e' & He' & Hp).
    destruct (Hall e' He') as [Hname' Hchild'].
    assert (e' = e) as ->.
    { apply (entry_unique entries); [done..|].
      destruct e' as [name' child']; simpl in *.
      destruct child'; try by apply elem_of_nil in Hp.
      destruct (reachable_below w top name' _ _ Hname' Hchild' Hp) as [r' ->].
      apply String.app_inj in Hr.
      eapply first_name_unique; [by apply name_ok_spec..|done]. }
    destruct e as [name child]; simpl in *.
    destruct child; try by apply elem_of_nil in Hp.
    by apply (IH _ He (Py.join top name) p).
Qed.

(** X7: nothing below a directory whose listing fails is passed to the
    scanner, at any depth. *)
Theorem X7_hidden_entries_not_scanned w start_path n p :
  opendir w start_path = Some n ->
  well_formed n = true ->
  p ∈ hidden_paths start_path n ->
  Run (clamscan p) ∉ trace (run w start_path).2.
Proof.
  intros Hopen Hwf Hp Hrun. destruct (run_exact w start_path) as [_ Ht].
  rewrite Ht in Hrun. unfold run_events, isdir in Hrun.
  rewrite Hopen in Hrun. simpl in Hrun.
  destruct n as [ls entries| |]; [|by apply elem_of_nil in Hp..].
  destruct (walk_events_runs w start_path (Dir ls entries) Hwf)
    as (scanned & Hb & _ & Hsub & _).
  apply elem_of_cons in Hrun as [?|Hrun]; [done|].
  apply elem_of_app in Hrun as [Hrun|Hrun].
  - apply elem_of_runs in Hrun. rewrite (blocks_runs w scanned) in Hrun by done.
    apply list_elem_of_fmap in Hrun as (f & [= <-] & Hf).
    by apply (reachable_not_hidden w (Dir ls entries) start_path p Hwf (Hsub _ Hf)).
  - destruct (walk_events _ _ _).1; [|by apply elem_of_nil in Hrun..].
    by apply list_elem_of_singleton in Hrun.
Qed.

Lemma X7_hidden_entries_not_scanned_witness :
  opendir deep "/" = Some deep_tree
  /\ well_formed deep_tree = true
  /\ "/locked/c.txt" ∈ hidden_paths "/" deep_tree
  /\ (Run (clamscan "/locked/c.txt") ∉ trace (run deep "/").2).
Proof.
  assert ("/locked/c.txt" ∈ hidden_paths "/" deep_tree) as Hp
    by (vm_compute; by left).
  split; [reflexivity|]. split; [by vm_compute|]. split; [exact Hp|].
  apply (X7_hidden_entries_not_scanned deep "/" deep_tree "/locked/c.txt");
    [reflexivity|by vm_compute|exact Hp].
Defined.

(** X8: every path passed to the scanner lies under the start path: it is
    the start path, a separator unless the start path ends with one, and a
    relative path. *)
Theorem X8_scans_stay_under_start_path w start_path n c :
  opendir w start_path = Some n ->
  well_formed n = true ->
  Run c ∈ trace (run w start_path).2 ->
  exists r, c = ["clamscan"; "--no-summary"; base start_path +:+ r]
            /\ r <> "".
Proof.
  intros Hopen Hwf Hrun. destruct (run_exact w start_path) as [_ Ht].
  rewrite Ht in Hrun. unfold run_events, isdir in Hrun.
  rewrite Hopen in Hrun. simpl in Hrun.
  destruct n as [ls entries| |];
    try (by apply list_elem_of_singleton in Hrun).
  destruct (walk_events_runs w start_path (Dir ls entries) Hwf)
    as (scanned & Hb & _ & Hsub & _).
  apply elem_of_cons in Hrun as [?|Hrun]; [done|].
  apply elem_of_app in Hrun as [Hrun|Hrun].
  - apply elem_of_runs in Hrun. rewrite (blocks_runs w scanned) in Hrun by done.
    apply list_elem_of_fmap in Hrun as (f & -> & Hf).
    destruct (reachable_base w _ _ _ Hwf (Hsub _ Hf)) as [r ->].
    exists r. split; [done|]. intros ->.
    assert (well_formed (Dir ls entries) = true) as Hwf' by done.
    pose proof (Hsub _ Hf) as Hreach. rewrite append_empty_r in Hreach.
    destruct ls; [|by apply elem_of_nil in Hreach].
    destruct (well_formed_Dir _ _ Hwf) as [_ Hall].
    rewrite Forall_forall in Hall.
    cbn [reachable_files] in Hreach.
    apply elem_of_app in Hreach as [Hp|Hp].
    + apply elem_of_regular_files in Hp as (f & Hf' & Heq & _).
      apply elem_of_nondirnames in Hf' as (e0 & He0 & <-).
      rewrite join_base in Heq by by apply Hall.
      rewrite <- (append_empty_r (base start_path)) in Heq at 1.
      apply String.app_inj in Heq.
      destruct (Hall _ He0) as [[Hne _]%name_ok_spec _]. done.
    + apply elem_of_children in Hp as (e & He & Hp).
      destruct (Hall e He) as [Hname Hchild].
      destruct e as [name child]; simpl in *.
      destruct child; try by apply elem_of_nil in Hp.
      destruct (reachable_below w _ _ _ _ Hname Hchild Hp) as [r Hr].
      rewrite <- (append_empty_r (base start_path)) in Hr at 1.
      apply String.app_inj in Hr. by destruct name.
  - destruct (walk_events _ _ _).1; [|by apply elem_of_nil in Hrun..].
    by apply list_elem_of_singleton in Hrun.
Qed.

Lemma X8_scans_stay_under_start_path_witness :
  opendir scenario "/r" = Some scenario_tree
  /\ well_formed scenario_tree = true
  /\ Run (clamscan "/r/b.exe") ∈ trace (run scenario "/r").2
  /\ exists r, clamscan "/r/b.exe" = ["clamscan"; "--no-summary"; "/r/" +:+ r]
               /\ r <> "".
Proof.
  assert (Run (clamscan "/r/b.exe") ∈ trace (run scenario "/r").2) as Hrun.
  { vm_compute. do 6 right. by left. }
  split; [reflexivity|]. split; [by vm_compute|]. split; [exact Hrun|].
  apply (X8_scans_stay_under_start_path scenario "/r" scenario_tree
           (clamscan "/r/b.exe")); [reflexivity|by vm_compute|exact Hrun].
Defined.

(** *** The records of a launch *)

Lemma scan_events_records w f :
  (scan_events w f).2 = Run (clamscan f) :: records_after w f.
Proof.
  unfold scan_events, records_after.
  destruct (exec w _) as [code out err|e|h]; [done| |done].
  by destruct (exn_cls e).
Qed.

Lemma records_after_no_run w f :
  Forall (fun e => ~ exists c, e = Run c) (records_after w f).
Proof.
  unfold records_after, classify.
  destruct (exec w _) as [code out err|e|h].
  - destruct (code =? 0); [|destruct (code =? 1)]; each_event;
      by intros [c [=]].
  - destruct (exn_cls e); each_event; by intros [c [=]].
  - constructor.
Qed.

Lemma split_after {A} (P : A -> Prop) tl evs pre y post :
  Forall (fun e => ~ P e) tl -> P y ->
  tl ++ evs = pre ++ y :: post ->
  exists pre2, pre = tl ++ pre2 /\ evs = pre2 ++ y :: post.
Proof.
  revert pre. induction tl as [|t tl IH]; intros pre Htl Hy Heq.
  - by exists pre.
  - apply Forall_cons in Htl as [Ht Htl].
    destruct pre as [|p pre]; simplify_eq/=; [done|].
    destruct (IH pre Htl Hy) as (pre2 & -> & ->); [done|]. by exists pre2.
Qed.

Lemma blocks_launch w fs evs :
  blocks w fs evs ->
  forall pre c post, evs = pre ++ Run c :: post ->
    exists f pre' post',
      f ∈ fs /\ c = clamscan f
      /\ pre = pre' ++ [Log DEBUG ("Scanning: " +:+ f)]
      /\ post = records_after w f ++ post'.
Proof.
  induction 1 as [|root fs evs _ IH|g fs evs _ IH]; intros pre c post Heq.
  - by destruct pre.
  - destruct pre as [|p pre]; simplify_eq/=.
    destruct (IH pre c post eq_refl) as (f & pre' & post' & Hf & -> & -> & ->).
    by exists f, (Consult root false :: pre'), post'.
  - rewrite scan_events_records in Heq.
    destruct pre as [|p pre]; simplify_eq/=.
    destruct pre as [|p pre]; simplify_eq/=.
    + exists g, [], evs. split; [by left|done].
    + destruct (split_after (fun e => exists c, e = Run c)
                  (records_after w g) evs pre (Run c) post)
        as (pre2 & -> & ->); [apply records_after_no_run|by exists c|done|].
      destruct (IH pre2 c post eq_refl) as (f & pre' & post' & Hf & -> & -> & ->).
      exists f, (Log DEBUG ("Scanning: " +:+ g) :: Run (clamscan g)
                 :: records_after w g ++ pre'), post'.
      split; [by right|]. split; [done|]. split; [|done].
      simpl. by rewrite <- app_assoc.
Qed.

(** X9: in every run a launch comes right after the DEBUG call that
    announces the file and right before the records of its outcome: the
    classification of the exit status, the unexpected-error record, or the
    missing-scanner record. *)
Theorem X9_launch_between_its_records w start_path pre c post :
  trace (run w start_path).2 = pre ++ Run c :: post ->
  exists file_path pre' post',
    c = ["clamscan"; "--no-summary"; file_path]
    /\ pre = pre' ++ [Log DEBUG ("Scanning: " +:+ file_path)]
    /\ post = records_after w file_path ++ post'.
Proof.
  destruct (run_exact w start_path) as [_ ->]. unfold run_events.
  destruct (isdir w start_path).
  - set (n := default NonDir (opendir w start_path)).
    destruct (walk_events_covers w n start_path) as (scanned & Hb & _).
    destruct (walk_events w start_path n) as [go_on evs]; simpl in *.
    intros Heq. destruct pre as [|p pre]; [by simplify_eq/=|].
    simpl in Heq. injection Heq as <- H.
    assert (exists post0, evs = pre ++ Run c :: post0
              /\ post = post0 ++ (match go_on with
                                  | Val _ => [Log INFO "ClamAV audit completed."]
                                  | _ => []
                                  end)) as (post0 & -> & ->).
    { destruct go_on as [[]| |e|h].
      - destruct post as [|x post _] using rev_ind.
        + apply app_inj_tail in H as [_ [=]].
        + rewrite app_comm_cons, app_assoc in H.
          apply app_inj_tail in H as [-> ->]. by exists post.
      - rewrite app_nil_r in H. exists post. by rewrite app_nil_r.
      - rewrite app_nil_r in H. exists post. by rewrite app_nil_r.
      - rewrite app_nil_r in H. exists post. by rewrite app_nil_r. }
    destruct (blocks_launch w scanned _ Hb pre c post0 eq_refl)
      as (f & pre' & post' & _ & -> & -> & ->).
    exists f, (Log INFO ("Starting ClamAV audit of: " +:+ start_path) :: pre'),
      (post' ++ (match go_on with
                 | Val _ => [Log INFO "ClamAV audit completed."]
                 | _ => []
                 end)).
    split; [done|]. split; [done|]. by rewrite app_assoc.
  - intros Heq. destruct pre as [|p [|q pre]]; simplify_eq/=.
Qed.

Lemma X9_launch_between_its_records_witness :
  trace (run scenario "/r").2
  = [Log INFO "Starting ClamAV audit of: /r"; Consult "/r" false;
     Log DEBUG "Scanning: /r/a.txt"]
    ++ Run (clamscan "/r/a.txt")
       :: [Log INFO "CLEAN: /r/a.txt";
           Log DEBUG "Scanning: /r/b.exe"; Run (clamscan "/r/b.exe");
           Log WARNING "INFECTED: /r/b.exe";
           Log WARNING "  ClamAV Output: /r/b.exe: Test.Signature FOUND";
           Log INFO "ClamAV audit completed."]
  /\ exists file_path pre' post',
       clamscan "/r/a.txt" = ["clamscan"; "--no-summary"; file_path]
       /\ [Log INFO "Starting ClamAV audit of: /r"; Consult "/r" false;
           Log DEBUG "Scanning: /r/a.txt"]
          = pre' ++ [Log DEBUG ("Scanning: " +:+ file_path)]
       /\ [Log INFO "CLEAN: /r/a.txt";
           Log DEBUG "Scanning: /r/b.exe"; Run (clamscan "/r/b.exe");
           Log WARNING "INFECTED: /r/b.exe";
           Log WARNING "  ClamAV Output: /r/b.exe: Test.Signature FOUND";
           Log INFO "ClamAV audit completed."]
          = records_after scenario file_path ++ post'.
Proof.
  split; [vm_compute; reflexivity|].
  apply (X9_launch_between_its_records scenario "/r").
  vm_compute. reflexivity.
Defined.

(** *** What a record in the log says about the scan *)

Lemma str_int_inj a b : Py.str_int a = Py.str_int b -> a = b.
Proof.
  unfold Py.str_int. intros Heq. apply DecimalZ.to_int_inj.
  assert (forall z, NilZero.int_of_string (NilZero.string_of_int (Z.to_int z))
                    = Some (Z.to_int z)) as Hparse.
  { intros z. apply NilZero.isi; destruct z; simpl; try discriminate;
      intros [= H]; by apply DecimalPos.Unsigned.to_uint_nonnil in H. }
  pose proof (Hparse a) as Ha. rewrite Heq, Hparse in Ha. congruence.
Qed.

Lemma scan_error_line_code f c c' :
  scan_error_line f c = scan_error_line f c' -> c = c'.
Proof.
  unfold scan_error_line. intros Heq. do 3 apply String.app_inj in Heq.
  apply str_int_inj.
  apply (f_equal list_ascii_of_string) in Heq. rewrite !chars_append in Heq.
  apply app_inv_tail in Heq. by apply chars_inj.
Qed.

Lemma blocks_elem w fs evs e :
  blocks w fs evs -> e ∈ evs ->
  (exists root, e = Consult root false)
  \/ exists f, f ∈ fs
       /\ (e = Log DEBUG ("Scanning: " +:+ f) \/ e = Run (clamscan f)
           \/ e ∈ records_after w f).
Proof.
  induction 1 as [|root fs evs _ IH|g fs evs _ IH]; intros He.
  - by apply elem_of_nil in He.
  - apply elem_of_cons in He as [->|He]; [left; by exists root|by apply IH].
  - rewrite scan_events_records in He.
    assert (g ∈ g :: fs) as Hg by by left.
    apply elem_of_cons in He as [->|He]; [right; exists g; auto|].
    apply elem_of_cons in He as [->|He]; [right; exists g; auto|].
    apply elem_of_app in He as [He|He]; [right; exists g; auto|].
    destruct (IH He) as [?|(f & Hf & Hcase)]; [by left|].
    right. exists f. split; [by right|done].
Qed.

Lemma blocks_scanned w fs evs f :
  blocks w fs evs -> f ∈ fs -> Run (clamscan f) ∈ evs.
Proof.
  induction 1 as [|root fs evs _ IH|g fs evs _ IH]; intros Hf.
  - by apply elem_of_nil in Hf.
  - right. by apply IH.
  - rewrite scan_events_records. right.
    apply elem_of_cons in Hf as [->|Hf]; [by left|].
    right. apply elem_of_app. right. by apply IH.
Qed.

(** Every event of a run is one of the three records of the call itself,
    a consultation that misses, or belongs to the scan of a file that the
    run launches. *)
Lemma run_events_elem w start_path e :
  e ∈ run_events w start_path ->
  e = Log INFO ("Starting ClamAV audit of: " +:+ start_path)
  \/ e = Log INFO "ClamAV audit completed."
  \/ e = Log ERROR ("Error: The provided path '" +:+ start_path
                    +:+ "' is not a valid directory.")
  \/ (exists root, e = Consult root false)
  \/ exists f, Run (clamscan f) ∈ run_events w start_path
       /\ (e = Log DEBUG ("Scanning: " +:+ f) \/ e = Run (clamscan f)
           \/ e ∈ records_after w f).
Proof.
  unfold run_events. destruct (isdir w start_path).
  - set (n := default NonDir (opendir w start_path)).
    destruct (walk_events_covers w n start_path) as (scanned & Hb & _).
    destruct (walk_events w start_path n) as [go_on evs]; simpl in *.
    intros [->|He]%elem_of_cons; [by left|].
    apply elem_of_app in He as [He|He].
    + destruct (blocks_elem w scanned evs e Hb He) as [?|(f & Hf & Hcase)];
        [by do 3 right; left|].
      do 4 right. exists f. split; [|done].
      right. apply elem_of_app. left. by eapply blocks_scanned.
    + destruct go_on; [|by apply elem_of_nil in He..].
      apply list_elem_of_singleton in He. by right; left.
  - intros ->%list_elem_of_singleton. by do 2 right; left.
Qed.

(** X10: a file is reported clean only if the scanner was launched on it
    in this run and exited with status 0. *)
Theorem X10_clean_record_sound w start_path file_path :
  Log INFO ("CLEAN: " +:+ file_path) ∈ trace (run w start_path).2 ->
  Run (clamscan file_path) ∈ trace (run w start_path).2
  /\ exists out err, exec w (clamscan file_path) = Exited 0 out err.
Proof.
  destruct (run_exact w start_path) as [_ ->]. intros He.
  destruct (run_events_elem w start_path _ He)
    as [[=]|[[=]|[[=]|[[root [=]]|(f & Hrun & [[=]|[[=]|Hrec]])]]]].
  unfold records_after in Hrec.
  destruct (exec w (clamscan f)) as [code out err|x|h] eqn:Hexec.
  - unfold classify in Hrec.
    destruct (Z.eqb_spec code 0) as [->|_]; [|destruct (code =? 1)].
    + apply list_elem_of_singleton in Hrec. injection Hrec as Heq.
      apply String.app_inj in Heq as ->. split; [done|]. by exists out, err.
    + repeat (apply elem_of_cons in Hrec as [[=]|Hrec]).
      by apply elem_of_nil in Hrec.
    + repeat (apply elem_of_cons in Hrec as [[=]|Hrec]).
      by apply elem_of_nil in Hrec.
  - destruct (exn_cls x); by apply list_elem_of_singleton in Hrec.
  - by apply elem_of_nil in Hrec.
Qed.

Lemma X10_clean_record_sound_witness :
  Log INFO ("CLEAN: " +:+ "/a.txt") ∈ trace (run deep "/").2
  /\ Run (clamscan "/a.txt") ∈ trace (run deep "/").2
  /\ exists out err, exec deep (clamscan "/a.txt") = Exited 0 out err.
Proof.
  assert (Log INFO ("CLEAN: " +:+ "/a.txt") ∈ trace (run deep "/").2) as He.
  { vm_compute. do 4 right. by left. }
  split; [exact He|].
  apply (X10_clean_record_sound deep "/" "/a.txt" He).
Defined.

(** X11: every WARNING record of a run is one of the two lines about a
    file on which the scanner was launched in this run and exited with
    status 1. *)
Theorem X11_warning_means_infected w start_path msg :
  Log WARNING msg ∈ trace (run w start_path).2 ->
  exists file_path out err,
    Run (clamscan file_path) ∈ trace (run w start_path).2
    /\ exec w (clamscan file_path) = Exited 1 out err
    /\ (msg = "INFECTED: " +:+ file_path
        \/ msg = "  ClamAV Output: " +:+ Py.strip out).
Proof.
  destruct (run_exact w start_path) as [_ ->]. intros He.
  destruct (run_events_elem w start_path _ He)
    as [[=]|[[=]|[[=]|[[root [=]]|(f & Hrun & [[=]|[[=]|Hrec]])]]]].
  unfold records_after in Hrec.
  destruct (exec w (clamscan f)) as [code out err|x|h] eqn:Hexec.
  - unfold classify in Hrec. exists f, out, err.
    destruct (Z.eqb_spec code 0) as [->|_]; [|destruct (Z.eqb_spec code 1) as [->|_]].
    + by apply list_elem_of_singleton in Hrec.
    + split; [done|]. split; [done|].
      apply elem_of_cons in Hrec as [[= ->]|Hrec]; [by left|].
      apply list_elem_of_singleton in Hrec as [= ->]. by right.
    + repeat (apply elem_of_cons in Hrec as [[=]|Hrec]).
      by apply elem_of_nil in Hrec.
  - destruct (exn_cls x); by apply list_elem_of_singleton in Hrec.
  - by apply elem_of_nil in Hrec.
Qed.

Lemma X11_warning_means_infected_witness :
  Log WARNING "INFECTED: /sub/b.exe" ∈ trace (run deep "/").2
  /\ exists file_path out err,
       Run (clamscan file_path) ∈ trace (run deep "/").2
       /\ exec deep (clamscan file_path) = Exited 1 out err
       /\ ("INFECTED: /sub/b.exe" = "INFECTED: " +:+ file_path
           \/ "INFECTED: /sub/b.exe" = "  ClamAV Output: " +:+ Py.strip out).
Proof.
  assert (Log WARNING "INFECTED: /sub/b.exe" ∈ trace (run deep "/").2) as He.
  { vm_compute. do 8 right. by left. }
  split; [exact He|].
  apply (X11_warning_means_infected deep "/" "INFECTED: /sub/b.exe" He).
Defined.

(** X12: a scan-error record names a file on which the scanner was
    launched in this run and the exit status it returned, which is neither
    0 nor 1. *)
Theorem X12_scan_error_record_sound w start_path file_path code :
  Log ERROR ("ERROR scanning " +:+ file_path +:+ " (Return Code: "
             +:+ Py.str_int code +:+ ")") ∈ trace (run w start_path).2 ->
  Run (clamscan file_path) ∈ trace (run w start_path).2
  /\ code <> 0 /\ code <> 1
  /\ exists out err, exec w (clamscan file_path) = Exited code out err.
Proof.
  destruct (run_exact w start_path) as [_ ->]. intros He.
  change (Log ERROR (scan_error_line file_path code) ∈ run_events w start_path)
    in He.
  destruct (run_events_elem w start_path _ He)
    as [[=]|[[=]|[Hbad|[[root [=]]|(f & Hrun & [[=]|[[=]|Hrec]])]]]].
  { exfalso. revert Hbad. unfold scan_error_line. discriminate. }
  unfold records_after in Hrec.
  destruct (exec w (clamscan f)) as [c out err|x|h] eqn:Hexec.
  - unfold classify in Hrec.
    destruct (Z.eqb_spec c 0) as [->|H0]; [|destruct (Z.eqb_spec c 1) as [->|H1]].
    + by apply list_elem_of_singleton in Hrec.
    + repeat (apply elem_of_cons in Hrec as [[=]|Hrec]).
      by apply elem_of_nil in Hrec.
    + apply elem_of_cons in Hrec as [Heq|Hrec].
      * apply (f_equal (fun e => match e with Log _ m => m | _ => "" end)) in Heq.
        change (scan_error_line file_path code = scan_error_line f c) in Heq.
        pose proof (scan_error_line_inj _ _ _ _ Heq) as ->.
        apply scan_error_line_code in Heq as ->.
        repeat split; [done..|]. by exists out, err.
      * exfalso. apply list_elem_of_singleton in Hrec. revert Hrec.
        unfold scan_error_line. discriminate.
  - exfalso. destruct (exn_cls x); apply list_elem_of_singleton in Hrec;
      revert Hrec; unfold scan_error_line, clamscan_not_found; discriminate.
  - by apply elem_of_nil in Hrec.
Qed.

Lemma X12_scan_error_record_sound_witness :
  Log ERROR ("ERROR scanning " +:+ "/sub/d.bin" +:+ " (Return Code: "
             +:+ Py.str_int 2 +:+ ")") ∈ trace (run deep "/").2
  /\ Run (clamscan "/sub/d.bin") ∈ trace (run deep "/").2
  /\ 2 <> 0 /\ 2 <> 1
  /\ exists out err, exec deep (clamscan "/sub/d.bin") = Exited 2 out err.
Proof.
  assert (Log ERROR ("ERROR scanning " +:+ "/sub/d.bin" +:+ " (Return Code: "
                     +:+ Py.str_int 2 +:+ ")") ∈ trace (run deep "/").2) as He.
  { vm_compute. do 12 right. by left. }
  split; [exact He|].
  apply (X12_scan_error_record_sound deep "/" "/sub/d.bin" 2 He).
Defined.

(** X13: the missing-scanner error is logged only when a launch of this
    run failed because the executable was not found. *)
Theorem X13_missing_scanner_record_sound w start_path :
  Log ERROR clamscan_not_found ∈ trace (run w start_path).2 ->
  exists file_path,
    Run (clamscan file_path) ∈ trace (run w start_path).2
    /\ not_found w (clamscan file_path).
Proof.
  destruct (run_exact w start_path) as [_ ->]. intros He.
  destruct (run_events_elem w start_path _ He)
    as [[=]|[[=]|[[=]|[[root [=]]|(f & Hrun & [[=]|[[=]|Hrec]])]]]].
  exists f. split; [done|]. unfold records_after in Hrec.
  destruct (exec w (clamscan f)) as [c out err|x|h] eqn:Hexec.
  - exfalso. unfold classify in Hrec.
    destruct (c =? 0); [|destruct (c =? 1)];
      repeat (apply elem_of_cons in Hrec as [[=]|Hrec]);
      by apply elem_of_nil in Hrec.
  - exists x. split; [done|].
    destruct (exn_cls x); [done|exfalso..];
      by apply list_elem_of_singleton in Hrec.
  - by apply elem_of_nil in Hrec.
Qed.

Lemma X13_missing_scanner_record_sound_witness :
  Log ERROR clamscan_not_found ∈ trace (run no_scanner "/r").2
  /\ exists file_path,
       Run (clamscan file_path) ∈ trace (run no_scanner "/r").2
       /\ not_found no_scanner (clamscan file_path).
Proof.
  assert (Log ERROR clamscan_not_found ∈ trace (run no_scanner "/r").2) as He.
  { vm_compute. do 4 right. by left. }
  split; [exact He|].
  apply (X13_missing_scanner_record_sound no_scanner "/r" He).
Defined.

(** X14: the invalid-directory error is logged exactly when the start path
    is not a directory, and a run on a directory starts the walk: it
    consults the set for the start path unless the directory cannot be
    listed. *)
Theorem X14_invalid_root_record_sound w start_path :
  (Log ERROR ("Error: The provided path '" +:+ start_path
              +:+ "' is not a valid directory.") ∈ trace (run w start_path).2
   <-> isdir w start_path = false)
  /\ (forall entries,
        opendir w start_path = Some (Dir Listed entries) ->
        exists evs,
          trace (run w start_path).2
          = Log INFO ("Starting ClamAV audit of: " +:+ start_path)
            :: Consult start_path false :: evs).
Proof.
  destruct (run_exact w start_path) as [_ ->]. split; [split|].
  - intros He. destruct (isdir w start_path) eqn:Hdir; [exfalso|done].
    destruct (run_events_elem w start_path _ He)
      as [[=]|[[=]|[_|[[root [=]]|(f & Hrun & [[=]|[[=]|Hrec]])]]]].
    + unfold run_events in He. rewrite Hdir in He.
      apply elem_of_cons in He as [[=]|He].
      apply elem_of_app in He as [He|He].
      * pose proof (walk_events_Forall w
          (fun e => e <> Log ERROR ("Error: The provided path '" +:+ start_path
                                    +:+ "' is not a valid directory."))) as Hall.
        eapply Forall_forall in Hall; [by apply Hall|..|exact He]; [done|].
        intros root file_name. unfold file_events.
        destruct (isfile w _); simpl; [|done]. constructor; [done|].
        unfold scan_events. destruct (exec w _) as [code out err|e|h]; simpl.
        -- constructor; [done|]. unfold classify.
           destruct (code =? 0); [|destruct (code =? 1)]; by each_event.
        -- by destruct (exn_cls e); simpl; each_event.
        -- by each_event.
      * destruct (walk_events _ _ _).1; [|by apply elem_of_nil in He..].
        by apply list_elem_of_singleton in He.
    + unfold records_after in Hrec.
      destruct (exec w (clamscan f)) as [c out err|x|h].
      * unfold classify in Hrec.
        destruct (c =? 0); [|destruct (c =? 1)];
          repeat (apply elem_of_cons in Hrec as [[=]|Hrec]);
          by apply elem_of_nil in Hrec.
      * destruct (exn_cls x); by apply list_elem_of_singleton in Hrec.
      * by apply elem_of_nil in Hrec.
  - intros Hdir. unfold run_events. rewrite Hdir. by left.
  - intros entries Hopen. by apply (run_events_first w start_path entries).
Qed.
